(** * sift_pyocl: keypoint matching plan and affine-transform estimator

    A shallow embedding of [sift-src/utils.py] ([calc_size],
    [kernel_size], [sizeof], [_gcd], [matching_correction]) and of
    [sift-src/match.py] (class [MatchPlan]: the constructor,
    [_compile_kernels], [match], [_reset_buffer], [reset_timer]), followed
    by the properties established about them.

    Conventions of the embedding:
    - Python integers are [Z]; lengths and indices of host containers are
      [nat]. The conversions to [numpy.int32] are the identity: buffer
      lengths stay far below 2^31.
    - The floating-point type of the coordinates is a parameter: the matcher
      only copies such values, and the estimator combines them with the
      additions and multiplications of a [Scalar] instance, about which no
      algebraic law is assumed.
    - Exceptions are values of [exn]; a call either returns or raises.
      A function with other exceptions names them in its [outcome].
    - The Python floats of [kernel_size] are IEEE binary64 numbers, with
      the operations of [SpecFloat].
    - What lives outside the two Python files (the OpenCL kernels, numpy's
      matrix inverse and record casts, the content of uninitialised device
      memory, the kernel files and their compiler) is taken through the
      classes [LinAlg], [Device] and [Toolchain]; the
      kernels that the specification describes are defined in [KernelSpec]
      and used only where a property is about what they compute.
    - [Lapack] is the binary64 inverse that numpy calls, for the one
      example that needs the roundings of a singular system. *)

From Stdlib Require Import ZArith QArith List Lia Bool String SpecFloat.
From stdpp Require Import base tactics option list strings gmap.
From Equations Require Import Equations.

Set Default Proof Using "Type".

(** ** Shared data model *)

(** [MatchPlan.dtype_kp]: four float32 fields and 128 descriptor bytes. *)
Record keypoint (F : Type) := Keypoint {
  x : F;
  y : F;
  scale : F;
  angle : F;
  desc : list Z
}.
Arguments Keypoint {F} _ _ _ _ _.
Arguments x {F} _.
Arguments y {F} _.
Arguments scale {F} _.
Arguments angle {F} _.
Arguments desc {F} _.

(** The Python exceptions the two files can raise. *)
Inductive exn :=
  | AssertionError
  | IndexError
  | ValueError
  | TypeError
  | LinAlgError
  | LogicError.

Inductive result (A : Type) :=
  | Ok (a : A)
  | Raise (e : exn).
Arguments Ok {A} a.
Arguments Raise {A} e.

Definition rbind {A B} (r : result A) (k : A → result B) : result B :=
  match r with
  | Ok a => k a
  | Raise e => Raise e
  end.

Declare Scope result_scope.
Delimit Scope result_scope with res.
Notation "'let*' a ':=' r 'in' k" := (rbind r (λ a, k))
  (at level 10, a name, r at level 100, k at level 200) : result_scope.

(** A call whose exceptions are not among [exn] names its own exception
    type [E]. *)
Inductive outcome (E A : Type) :=
  | Return (a : A)
  | Throw (e : E).
Arguments Return {E A} a.
Arguments Throw {E A} e.

Definition obind {E A B} (r : outcome E A) (k : A → outcome E B)
    : outcome E B :=
  match r with
  | Return a => k a
  | Throw e => Throw e
  end.

Declare Scope outcome_scope.
Delimit Scope outcome_scope with out.
Notation "'let*' a ':=' r 'in' k" := (obind r (λ a, k))
  (at level 10, a name, r at level 100, k at level 200) : outcome_scope.

(** ** utils.py *)

Module Utils.

(** [blocksize] is either a sequence (it has [__len__]) or a plain number. *)
Inductive blocksize :=
  | BlockSeq (js : list Z)
  | BlockInt (j : Z).

(** [(int(i) + int(j) - 1) & ~(int(j) - 1)] on unbounded integers. *)
Definition round_to_block (i j : Z) : Z :=
  Z.land (i + j - 1) (Z.lnot (j - 1)).

Definition calc_size (shape : list Z) (b : blocksize) : list Z :=
  match b with
  | BlockSeq js => zip_with round_to_block shape js
  | BlockInt j => (λ i, round_to_block i j) <$> shape
  end.

(** The block size that [calc_size] pairs with dimension [d]. *)
Definition block_at (b : blocksize) (d : nat) : option Z :=
  match b with
  | BlockSeq js => js !! d
  | BlockInt j => Some j
  end.

Definition block_entries (b : blocksize) : list Z :=
  match b with
  | BlockSeq js => js
  | BlockInt j => [j]
  end.

(** *** The part of numpy that [matching_correction] uses *)

(** The arithmetic of numpy's float64, kept abstract. *)
Class Scalar (T : Type) := {
  zero : T;
  one : T;
  add : T → T → T;
  mul : T → T → T
}.

(** A rank-2 array: its shape and its items. *)
Record ndarray (T : Type) := NDArray {
  nrows : nat;
  ncols : nat;
  item : nat → nat → T
}.
Arguments NDArray {T} _ _ _.
Arguments nrows {T} _.
Arguments ncols {T} _.
Arguments item {T} _ _ _.

(** [numpy.linalg.inv]; [None] stands for its [LinAlgError]. *)
Class LinAlg (T : Type) := {
  inv : ndarray T → option (ndarray T)
}.

Section Numpy.
Context {T : Type} `{Scalar T}.

Definition zeros (r c : nat) : ndarray T := NDArray r c (λ _ _, zero).

Definition transpose (A : ndarray T) : ndarray T :=
  NDArray (ncols A) (nrows A) (λ i j, item A j i).

(** Row [r] belongs to the slice [start::step]. *)
Definition in_slice (start step r : nat) : bool :=
  (start <=? r) && ((r - start) mod step =? 0).

(** Number of indices below [n] in [start::step]. *)
Definition slice_len (n start step : nat) : nat :=
  (n - start + step - 1) / step.

(** [A[start::step, c0:c1] = vals]: the tuple [vals] goes to every
    selected row; numpy refuses a tuple of another length. *)
Definition assign_rows (start step c0 c1 : nat) (vals : list T)
    (A : ndarray T) : result (ndarray T) :=
  if length vals =? c1 - c0 then
    Ok (NDArray (nrows A) (ncols A) (λ r c,
          if in_slice start step r && (c0 <=? c) && (c <? c1)
          then nth (c - c0) vals zero
          else item A r c))
  else Raise ValueError.

(** [A[start::step, c] = v] for a rank-1 [v]: the k-th selected row
    receives [v[k]]; the lengths have to agree. *)
Definition assign_col (start step c : nat) (v : list T)
    (A : ndarray T) : result (ndarray T) :=
  if length v =? slice_len (nrows A) start step then
    Ok (NDArray (nrows A) (ncols A) (λ r c',
          if in_slice start step r && (c' =? c)
          then nth ((r - start) / step) v zero
          else item A r c'))
  else Raise ValueError.

(** [A[start::step, c] = s] for a number [s]. *)
Definition assign_scalar (start step c : nat) (s : T)
    (A : ndarray T) : ndarray T :=
  NDArray (nrows A) (ncols A) (λ r c',
    if in_slice start step r && (c' =? c) then s else item A r c').

Definition sum_list (l : list T) : T := foldl add zero l.

(** [numpy.dot] of two rank-2 arrays. *)
Definition dot (A B : ndarray T) : result (ndarray T) :=
  if ncols A =? nrows B then
    Ok (NDArray (nrows A) (ncols B) (λ i j,
          sum_list ((λ k, mul (item A i k) (item B k j)) <$> seq 0 (ncols A))))
  else Raise ValueError.

Context `{LinAlg T}.

Definition linalg_inv (A : ndarray T) : result (ndarray T) :=
  match inv A with
  | Some Ai => Ok Ai
  | None => Raise LinAlgError
  end.

Local Open Scope result_scope.

(** The design matrix built by lines 99-106. *)
Definition build_X (matching : list (keypoint T * keypoint T))
    : result (ndarray T) :=
  let N := length matching in
  let X := zeros (2 * N) 6 in
  let* X := assign_rows 0 2 2 (ncols X) [one; zero; zero; zero] X in
  let* X := assign_col 0 2 0 ((λ m, x (fst m)) <$> matching) X in
  let* X := assign_col 0 2 1 ((λ m, y (fst m)) <$> matching) X in
  let* X := assign_rows 1 2 0 3 [zero; zero; zero] X in
  let* X := assign_col 1 2 3 ((λ m, x (fst m)) <$> matching) X in
  let* X := assign_col 1 2 4 ((λ m, y (fst m)) <$> matching) X in
  Ok (assign_scalar 1 2 5 one X).

(** The right-hand side built by lines 107-109. *)
Definition build_y (matching : list (keypoint T * keypoint T))
    : result (ndarray T) :=
  let N := length matching in
  let y_ := zeros (2 * N) 1 in
  let* y_ := assign_col 0 2 0 ((λ m, x (snd m)) <$> matching) y_ in
  assign_col 1 2 0 ((λ m, y (snd m)) <$> matching) y_.

Definition matching_correction (matching : list (keypoint T * keypoint T))
    : result (ndarray T) :=
  let* X := build_X matching in
  let* y_ := build_y matching in
  let* A := dot (transpose X) X in
  let* Ai := linalg_inv A in
  let* b := dot (transpose X) y_ in
  dot Ai b.






End Numpy.

(** *** [_gcd] *)

(** [while b: a, b = b, a % b] and [return a]. Python's [%] takes the sign
    of the divisor, as [Z.modulo] does; the loop ends because [|b|]
    decreases. *)
Equations? _gcd (a b : Z) : Z by wf (Z.abs_nat b) lt :=
  _gcd a b := if Z.eq_dec b 0%Z then a else _gcd b (a mod b)%Z.
Proof.
  pose proof (Z.mod_bound_or a b n). lia.
Qed.

(** *** [sizeof] *)

(** The scalar types of numpy that the repository names, and a packed
    record of fields, each a scalar type repeated [count] times. *)
Inductive scalar_type := np_uint8 | np_int8 | np_int32 | np_float32 | np_float64.

Inductive np_dtype :=
  | Plain (s : scalar_type)
  | Packed (fields : list (string * scalar_type * nat)).

Definition scalar_itemsize (s : scalar_type) : Z :=
  match s with
  | np_uint8 | np_int8 => 1
  | np_int32 | np_float32 => 4
  | np_float64 => 8
  end.

(** [numpy.dtype(dtype).itemsize] *)
Definition itemsize (d : np_dtype) : Z :=
  match d with
  | Plain s => scalar_itemsize s
  | Packed fields =>
      foldr (λ f acc, scalar_itemsize f.1.2 * Z.of_nat f.2 + acc)%Z 0%Z fields
  end.

(** [shape] is a sequence (it has [__len__]) or a plain number. *)
Inductive shape_arg :=
  | ShapeSeq (dims : list Z)
  | ShapeInt (n : Z).

(** [cnt = 1], then [cnt *= dim] for each dimension, or [cnt = int(shape)];
    the value is [cnt * itemsize]. *)
Definition sizeof (shape : shape_arg) (dtype : np_dtype) : Z :=
  let cnt := match shape with
             | ShapeSeq dims => foldl Z.mul 1%Z dims
             | ShapeInt n => n
             end in
  (cnt * itemsize dtype)%Z.

(** *** [kernel_size] *)

(** Python's [float]: IEEE binary64 with rounding to nearest even. *)
Definition float64 : Type := spec_float.
Definition float_mul : float64 → float64 → float64 := SFmul 53 1024.
Definition float_add : float64 → float64 → float64 := SFadd 53 1024.

(** A Python number: an integer of any size or a float. *)
Inductive number :=
  | PyInt (n : Z)
  | PyFloat (f : float64).

(** What [float(n)] and [int(f)] raise: [OverflowError] for a value beyond
    the floats or an infinity, [ValueError] for a NaN. *)
Inductive conversion_error := OverflowError | NanValueError.

(** [float(n)]: the nearest float. *)
Definition float_of_int (n : Z) : outcome conversion_error float64 :=
  match binary_normalize 53 1024 n 0 false with
  | S754_infinity _ => Throw OverflowError
  | f => Return f
  end.

Definition to_float (v : number) : outcome conversion_error float64 :=
  match v with
  | PyInt n => float_of_int n
  | PyFloat f => Return f
  end.

(** [a * b] and [a + b]: exact on two integers, in floats otherwise. *)
Definition number_mul (a b : number) : outcome conversion_error number :=
  match a, b with
  | PyInt m, PyInt n => Return (PyInt (m * n))
  | _, _ =>
      (let* fa := to_float a in
       let* fb := to_float b in
       Return (PyFloat (float_mul fa fb)))%out
  end.

Definition number_add (a b : number) : outcome conversion_error number :=
  match a, b with
  | PyInt m, PyInt n => Return (PyInt (m + n))
  | _, _ =>
      (let* fa := to_float a in
       let* fb := to_float b in
       Return (PyFloat (float_add fa fb)))%out
  end.

(** [int(ceil(v))]: [math.ceil] works on the float of its argument; the
    ceiling of a finite float [± m * 2^e] is an integer that [int] returns
    as it is. *)
Definition ceil_int (v : number) : outcome conversion_error Z :=
  (let* f := to_float v in
   match f with
   | S754_zero _ => Return 0%Z
   | S754_infinity _ => Throw OverflowError
   | S754_nan => Throw NanValueError
   | S754_finite s m e =>
       let n := cond_Zopp s (Z.pos m) in
       Return (if 0 <=? e then n * 2 ^ e else - ((- n) / 2 ^ (- e)))%Z
   end)%out.

(** [size = int(ceil(2 * cutoff * sigma + 1))], made odd on request. *)
Definition kernel_size (sigma : number) (odd : bool) (cutoff : number)
    : outcome conversion_error Z :=
  (let* a := number_mul (PyInt 2) cutoff in
   let* b := number_mul a sigma in
   let* c := number_add b (PyInt 1) in
   let* size := ceil_int c in
   Return (if odd && (size mod 2 =? 0)%Z then (size + 1)%Z else size))%out.

End Utils.

(** ** [numpy.linalg.inv] on float64

    On a float64 array numpy hands the matrix to LAPACK's [dgesv] with the
    identity as right-hand side, and raises [LinAlgError] when the matrix
    is not square or when the factorisation reports a pivot that is exactly
    zero. This is the routine without blocking: elimination by columns with
    partial pivoting, the column below the pivot scaled by the reciprocal
    of the pivot, then a forward and a backward substitution for each
    column of the identity. An optimised library may round in another
    order; the test for a singular matrix is the same. *)

Module Lapack.
Import Utils.

Definition float_div : float64 → float64 → float64 := SFdiv 53 1024.
Definition float_zero : float64 := S754_zero false.
Definition float_one : float64 := S754_finite false 4503599627370496 (-52).



(** The smallest float whose reciprocal does not overflow, [2^-1022]. *)
Definition sfmin : float64 := S754_finite false 4503599627370496 (-1074).

Definition matrix : Type := list (list float64).

Definition entry (a : matrix) (i j : nat) : float64 :=
  nth j (nth i a []) float_zero.



(** The multiplier of a row: its entry in the pivot column over the
    pivot. *)
Definition scale (pivot v : float64) : float64 :=
  if SFleb sfmin (SFabs pivot)
  then float_mul v (float_div float_one pivot)
  else float_div v pivot.













End Lapack.

(** ** match.py *)

Module MatchPlan.
Import Utils.

(** [MatchPlan.kernels]: the work-group size of each kernel file. *)
Inductive kernel_name := matching_gpu | matching_cpu | memset.

Definition kernels (k : kernel_name) : Z :=
  match k with
  | matching_gpu => 64
  | matching_cpu => 16
  | memset => 128
  end.

(** [MatchPlan.dtype_kp], field by field: numpy packs the fields. *)
Definition dtype_kp_layout : np_dtype :=
  Packed [ ("x", np_float32, 1); ("y", np_float32, 1);
           ("scale", np_float32, 1); ("angle", np_float32, 1);
           ("desc", np_uint8, 128) ]%string.

(** What [match] looks at in an argument: its rank, its Python type, and
    its items. The element dtype is carried along: the code never reads it,
    numpy does when the records are assigned to the result. A host array
    of this model is contiguous and its records fill one record of a
    keypoint buffer each: a strided view, or a dtype with wider records,
    which [pyopencl.enqueue_copy] refuses whatever the number of records,
    is not among its values. *)
Inductive pytype := numpy_recarray | numpy_ndarray.
Inductive dtype := dtype_kp | dtype_other.

Record hostarray (F : Type) := HostArray {
  ndim : nat;
  type_ : pytype;
  dtype_ : dtype;
  items : list (keypoint F)
}.
Arguments HostArray {F} _ _ _ _.
Arguments ndim {F} _.
Arguments type_ {F} _.
Arguments dtype_ {F} _.
Arguments items {F} _.

(** [nkp.size] *)
Definition size_of {F} (a : hostarray F) : nat := length (items a).

Definition is_recarray {F} (a : hostarray F) : bool :=
  match type_ a with
  | numpy_recarray => true
  | numpy_ndarray => false
  end.

(** A [pyopencl.array.Array]: shape and flat device memory. *)
Record array (A : Type) := Array {
  shape : list nat;
  data : list A
}.
Arguments Array {A} _ _.
Arguments shape {A} _.
Arguments data {A} _.

(** [.size]: the number of entries, the product of the shape. *)
Definition size {A} (a : array A) : nat := foldr Nat.mul 1 (shape a).

(** [.shape[0]] *)
Definition shape0 {A} (a : array A) : nat := hd 0 (shape a).

(** The state of a plan: [self.buffers] and the attributes [match] uses. *)
Record plan (F : Type) := Plan {
  profile : bool;
  kpsize : nat;
  USE_CPU : bool;
  events : list string;
  buf_Kp_1 : array (keypoint F);
  buf_Kp_2 : array (keypoint F);
  buf_match : array Z;
  buf_cnt : array Z
}.
Arguments Plan {F} _ _ _ _ _ _ _ _.
Arguments profile {F} _.
Arguments kpsize {F} _.
Arguments USE_CPU {F} _.
Arguments events {F} _.
Arguments buf_Kp_1 {F} _.
Arguments buf_Kp_2 {F} _.
Arguments buf_match {F} _.
Arguments buf_cnt {F} _.

(** What a call does to the outside world, in order. *)
Inductive event :=
  | Acquire
  | Release
  | Warning (msg : string) (n : nat)
  | Alloc (name : string) (shp : list nat)
  | Launch (k : kernel_name) (entry : string) (global local : list Z)
  | CopyH2D (name : string)
  | Get (name : string).

(** A kernel's effect on a buffer: the writes it performs. *)
Definition writes (A : Type) := list (nat * A).

Definition apply_writes {A} (ws : writes A) (mem : list A) : list A :=
  foldl (λ m w, <[fst w := snd w]> m) mem ws.

(** The collaborators of [match.py]: device memory as allocated, the three
    OpenCL kernels, the configured ratio [par.MatchRatio], [numpy.float32(-1.0)]
    and numpy's cast of a record of another dtype ([None]: it raises). *)
Class Device (F : Type) := {
  float32_minus_one : F;
  MatchRatio : Q;
  uninit_kp : nat → keypoint F;
  uninit_int : nat → Z;
  memset_kp : list Z → list (keypoint F) → F → Z → Z → writes (keypoint F);
  memset_int : list Z → list Z → Z → Z → writes Z;
  matching : kernel_name → list Z →
             list (keypoint F) → list (keypoint F) → list Z → list Z →
             Z → Q → Z → Z → writes Z * writes Z;
  numpy_cast : keypoint F → option (keypoint F)
}.

Section Plan.
Context {F : Type} `{Device F}.

(** *** The monad of a method call: plan state, exceptions, event trace *)

Definition M (A : Type) : Type := plan F → result A * plan F * list event.

Definition ret {A} (a : A) : M A := λ p, (Ok a, p, []).

Definition bind {A B} (m : M A) (k : A → M B) : M B := λ p,
  match m p with
  | (Ok a, p1, t1) =>
      match k a p1 with
      | (r, p2, t2) => (r, p2, t1 ++ t2)
      end
  | (Raise e, p1, t1) => (Raise e, p1, t1)
  end.

Definition raise {A} (e : exn) : M A := λ p, (Raise e, p, []).
Definition emit (ev : event) : M unit := λ p, (Ok tt, p, [ev]).
Definition get : M (plan F) := λ p, (Ok p, p, []).
Definition put (p : plan F) : M unit := λ _, (Ok tt, p, []).
Definition lift {A} (r : result A) : M A := λ p, (r, p, []).

(** [assert c] *)
Definition assert_ (c : bool) : M unit :=
  if c then ret tt else raise AssertionError.

(** [with self._sem:] the semaphore is released on every way out. *)
Definition with_sem {A} (m : M A) : M A := λ p,
  match m p with
  | (r, p1, t) => (r, p1, Acquire :: t ++ [Release])
  end.

End Plan.
Arguments M F A : clear implicits.

Declare Scope plan_scope.
Delimit Scope plan_scope with plan.
Notation "'let*' a ':=' m 'in' k" := (bind m (λ a, k))
  (at level 10, a name, m at level 100, k at level 200) : plan_scope.
Notation "m ';;' k" := (bind m (λ _, k))
  (at level 100, k at level 200, right associativity) : plan_scope.

Section Methods.
Context {F : Type} `{Device F}.
Local Open Scope plan_scope.

Definition modify (f : plan F → plan F) : M F unit := λ p, (Ok tt, f p, []).

Definition set_Kp_1 (b : array (keypoint F)) (p : plan F) : plan F :=
  Plan (profile p) (kpsize p) (USE_CPU p) (events p)
       b (buf_Kp_2 p) (buf_match p) (buf_cnt p).
Definition set_Kp_2 (b : array (keypoint F)) (p : plan F) : plan F :=
  Plan (profile p) (kpsize p) (USE_CPU p) (events p)
       (buf_Kp_1 p) b (buf_match p) (buf_cnt p).
Definition set_match (b : array Z) (p : plan F) : plan F :=
  Plan (profile p) (kpsize p) (USE_CPU p) (events p)
       (buf_Kp_1 p) (buf_Kp_2 p) b (buf_cnt p).
Definition set_cnt (b : array Z) (p : plan F) : plan F :=
  Plan (profile p) (kpsize p) (USE_CPU p) (events p)
       (buf_Kp_1 p) (buf_Kp_2 p) (buf_match p) b.
Definition set_events (evs : list string) (p : plan F) : plan F :=
  Plan (profile p) (kpsize p) (USE_CPU p) evs
       (buf_Kp_1 p) (buf_Kp_2 p) (buf_match p) (buf_cnt p).

(** [pyopencl.array.empty(queue, shape, dtype)]: memory as it comes. *)
Definition empty_kp (shp : list nat) : array (keypoint F) :=
  Array shp (uninit_kp <$> seq 0 (foldr Nat.mul 1 shp)).
Definition empty_int (shp : list nat) : array Z :=
  Array shp (uninit_int <$> seq 0 (foldr Nat.mul 1 shp)).

(** A kernel launch on one buffer: its writes land in the memory. *)
Definition written {A} (ws : writes A) (b : array A) : array A :=
  Array (shape b) (apply_writes ws (data b)).

Definition _allocate_buffers (p : plan F) : plan F :=
  set_cnt (empty_int [1])
    (set_match (empty_int [kpsize p; 2])
      (set_Kp_2 (empty_kp [kpsize p])
        (set_Kp_1 (empty_kp [kpsize p]) p))).

(** [__init__]: the attributes [match] reads and the allocated buffers.
    [cpu] is whether the selected device is of type ["CPU"]. *)
Definition __init__ (size : nat) (cpu : bool) (profile : bool) : plan F :=
  _allocate_buffers
    (Plan profile size cpu [] (Array [] []) (Array [] []) (Array [] []) (Array [] [])).

Definition matching_kernel (p : plan F) : kernel_name :=
  if negb (USE_CPU p) then matching_gpu else matching_cpu.

(** [if self.profile: self.events += evs] *)
Definition record_events (evs : list string) : M F unit :=
  let* p := get in
  if profile p then put (set_events (events p ++ evs) p) else ret tt.

Definition _reset_buffer : M F unit :=
  let* p := get in
  let g1 := calc_size [Z.of_nat (size (buf_Kp_1 p))] (BlockSeq [kernels memset]) in
  emit (Launch memset "memset_kp" g1 [kernels memset]) ;;
  modify (λ p, set_Kp_1 (written
    (memset_kp g1 (data (buf_Kp_1 p)) float32_minus_one 0
               (Z.of_nat (size (buf_Kp_1 p)))) (buf_Kp_1 p)) p) ;;
  let* p := get in
  let g2 := calc_size [Z.of_nat (size (buf_Kp_2 p))] (BlockSeq [kernels memset]) in
  emit (Launch memset "memset_kp" g2 [kernels memset]) ;;
  modify (λ p, set_Kp_2 (written
    (memset_kp g2 (data (buf_Kp_2 p)) float32_minus_one 0
               (Z.of_nat (size (buf_Kp_2 p)))) (buf_Kp_2 p)) p) ;;
  let* p := get in
  let g3 := calc_size [Z.of_nat (size (buf_match p))] (BlockSeq [kernels memset]) in
  emit (Launch memset "memset_int" g3 [kernels memset]) ;;
  modify (λ p, set_match (written
    (memset_int g3 (data (buf_match p)) (-1)
                (Z.of_nat (size (buf_match p)))) (buf_match p)) p) ;;
  emit (Launch memset "memset_int" [1%Z] [1%Z]) ;;
  modify (λ p, set_cnt (written
    (memset_int [1%Z] (data (buf_cnt p)) 0 1) (buf_cnt p)) p) ;;
  record_events ["memset Kp1"; "memset Kp2"; "memset match"; "memset cnt"]%string.

(** Lines 180-188: the three capacity tests and reallocations. *)
Definition grow_buffers (nkp1 nkp2 : hostarray F) : M F unit :=
  let* p := get in
  (if size (buf_Kp_1 p) <? size_of nkp1 then
     emit (Warning "increasing size of keypoint vector 1 to %i" (size_of nkp1)) ;;
     emit (Alloc "Kp_1" [size_of nkp1]) ;;
     modify (set_Kp_1 (empty_kp [size_of nkp1]))
   else ret tt) ;;
  let* p := get in
  (if size (buf_Kp_2 p) <? size_of nkp2 then
     emit (Warning "increasing size of keypoint vector 2 to %i" (size_of nkp2)) ;;
     emit (Alloc "Kp_2" [size_of nkp2]) ;;
     modify (set_Kp_2 (empty_kp [size_of nkp2]))
   else ret tt) ;;
  let* p := get in
  if size (buf_match p) <? size_of nkp2 `min` size_of nkp1 then
    emit (Alloc "match" [size_of nkp2 `min` size_of nkp1]) ;;
    modify (set_match (empty_int [size_of nkp2 `min` size_of nkp1]))
  else ret tt.

(** [pyopencl.enqueue_copy(queue, device.data, host)]: the host records
    overwrite the front of the device memory; a longer host array is
    refused by the OpenCL runtime. The copy is one of bytes: for the host
    arrays of this model, whose records have the size of the buffer's,
    comparing the numbers of records is comparing the numbers of bytes. *)
Definition copy_into (src : list (keypoint F)) (b : array (keypoint F))
    : array (keypoint F) :=
  Array (shape b) (src ++ drop (length src) (data b)).

Definition enqueue_copy_Kp_1 (nkp1 : hostarray F) : M F unit :=
  let* p := get in
  if length (items nkp1) <=? length (data (buf_Kp_1 p)) then
    emit (CopyH2D "Kp_1") ;;
    modify (λ p, set_Kp_1 (copy_into (items nkp1) (buf_Kp_1 p)) p)
  else raise LogicError.

Definition enqueue_copy_Kp_2 (nkp2 : hostarray F) : M F unit :=
  let* p := get in
  if length (items nkp2) <=? length (data (buf_Kp_2 p)) then
    emit (CopyH2D "Kp_2") ;;
    modify (λ p, set_Kp_2 (copy_into (items nkp2) (buf_Kp_2 p)) p)
  else raise LogicError.

(** Lines 195-203: the launch of [matching]. *)
Definition launch_matching (nkp1 nkp2 : hostarray F) : M F unit :=
  let* p := get in
  let k := matching_kernel p in
  let g := calc_size [Z.of_nat (size_of nkp1)] (BlockSeq [kernels k]) in
  emit (Launch k "matching" g [kernels k]) ;;
  modify (λ p,
    let w := matching k g
               (data (buf_Kp_1 p)) (data (buf_Kp_2 p))
               (data (buf_match p)) (data (buf_cnt p))
               (Z.of_nat (shape0 (buf_match p)))
               (MatchRatio * MatchRatio)%Q
               (Z.of_nat (size_of nkp1)) (Z.of_nat (size_of nkp2)) in
    set_cnt (written (snd w) (buf_cnt p))
      (set_match (written (fst w) (buf_match p)) p)).

Local Open Scope Z_scope.

(** [l[i]] for a Python integer [i]: negative indices count from the end. *)
Definition getitem {A} (l : list A) (i : Z) : result A :=
  let n := Z.of_nat (length l) in
  let j := if i <? 0 then n + i else i in
  if (0 <=? j) && (j <? n) then
    match l !! Z.to_nat j with
    | Some a => Ok a
    | None => Raise IndexError
    end
  else Raise IndexError.

Fixpoint rmapM {A B} (f : A → result B) (l : list A) : result (list B) :=
  match l with
  | [] => Ok []
  | a :: l' =>
      match f a with
      | Ok b =>
          match rmapM f l' with
          | Ok bs => Ok (b :: bs)
          | Raise e => Raise e
          end
      | Raise e => Raise e
      end
  end.

(** [nkp[idx]] for an integer array [idx]. *)
Definition fancy_index (nkp : hostarray F) (idx : list Z)
    : result (list (keypoint F)) :=
  rmapM (getitem (items nkp)) idx.

(** [m[:n, c]] on the downloaded array, which has rank 2 or 1: a rank-1
    array has no second axis, and a column past the last one does not
    exist. *)
Definition column (m : array Z) (n : nat) (c : nat) : result (list Z) :=
  match shape m with
  | [rows; cols] =>
      if (c <? cols)%nat then
        Ok ((λ i, data m !!! (i * cols + c)%nat) <$> seq 0 (n `min` rows))
      else Raise IndexError
  | _ => Raise IndexError
  end.

(** The row [i] of the downloaded array, as an index pair. *)
Definition index_pair (m : array Z) (i : nat) : option (Z * Z) :=
  match shape m with
  | [rows; 2%nat] =>
      if (i <? rows)%nat
      then Some (data m !!! (2 * i)%nat, data m !!! (2 * i + 1)%nat)
      else None
  | _ => None
  end.

(** The assignment of a record to a field of the result: a record of
    another dtype is cast, and numpy raises [TypeError] when it cannot. *)
Definition cast_item (d : dtype) (k : keypoint F) : result (keypoint F) :=
  match d with
  | dtype_kp => Ok k
  | dtype_other =>
      match numpy_cast k with
      | Some k' => Ok k'
      | None => Raise TypeError
      end
  end.

(** [result[:, c] = vals] for a column of [n] rows: equal lengths, or a
    single value broadcast to all rows. *)
Definition assign_column (d : dtype) (n : nat) (vals : list (keypoint F))
    : result (list (keypoint F)) :=
  match rmapM (cast_item d) vals with
  | Ok vs =>
      if (length vs =? n)%nat then Ok vs
      else match vs with
           | [v] => Ok (replicate n v)
           | _ => Raise ValueError
           end
  | Raise e => Raise e
  end.

(** Lines 206-210: download and assembly of the result. *)
Definition assemble (nkp1 nkp2 : hostarray F)
    : M F (list (keypoint F * keypoint F)) :=
  (emit (Get "cnt") ;;
   let* p := get in
   let* sz := lift (match data (buf_cnt p) !! 0%nat with
                    | Some c => Ok c
                    | None => Raise IndexError
                    end) in
   let* _ := lift (if sz <? 0 then Raise ValueError else Ok tt) in
   emit (Get "match") ;;
   let matching_ := buf_match p in
   let n := Z.to_nat sz in
   let* i0 := lift (column matching_ n 0) in
   let* a := lift (fancy_index nkp1 i0) in
   let* c0 := lift (assign_column (dtype_ nkp1) n a) in
   let* i1 := lift (column matching_ n 1) in
   let* b := lift (fancy_index nkp2 i1) in
   let* c1 := lift (assign_column (dtype_ nkp2) n b) in
   ret (zip c0 c1))%plan.

Local Close Scope Z_scope.

(** Lines 191-210: what follows the reset. *)
Definition after_reset (nkp1 nkp2 : hostarray F)
    : M F (list (keypoint F * keypoint F)) :=
  enqueue_copy_Kp_1 nkp1 ;;
  enqueue_copy_Kp_2 nkp2 ;;
  record_events ["copy H->D KP_1"; "copy H->D KP_2"]%string ;;
  launch_matching nkp1 nkp2 ;;
  record_events ["matching"]%string ;;
  assemble nkp1 nkp2.

(** Lines 179-210: what runs while the semaphore is held. *)
Definition match_locked (nkp1 nkp2 : hostarray F)
    : M F (list (keypoint F * keypoint F)) :=
  grow_buffers nkp1 nkp2 ;;
  _reset_buffer ;;
  after_reset nkp1 nkp2.

(** [MatchPlan.match] *)
Definition match_ (nkp1 nkp2 : hostarray F)
    : M F (list (keypoint F * keypoint F)) :=
  assert_ (ndim nkp1 =? 1) ;;
  assert_ (ndim nkp2 =? 1) ;;
  assert_ (is_recarray nkp1) ;;
  assert_ (is_recarray nkp2) ;;
  with_sem (match_locked nkp1 nkp2).

(** [reset_timer]: [with self._sem: self.events = []] *)
Definition reset_timer : M F unit :=
  with_sem (modify (set_events [])).

End Methods.

(** *** [_compile_kernels] *)

(** The key of a kernel in [MatchPlan.kernels]; its file is the key
    followed by [.cl]. *)
Definition kernel_key (k : kernel_name) : string :=
  match k with
  | matching_gpu => "matching_gpu"
  | matching_cpu => "matching_cpu"
  | memset => "memset"
  end.

(** How [pyopencl.Program(...).build(...)] can fail: the two exceptions
    that the method catches, and any other one. *)
Inductive build_failure := CL_MemoryError | CL_RuntimeError | CL_OtherError.

(** The exceptions that leave [_compile_kernels]. *)
Inductive compile_exn :=
  | IOError
  | MemoryError
  | RuntimeError
  | OtherError
  | UnboundLocalError.

(** Outside the file: reading a kernel file ([None]: it cannot be read)
    and building its source with the option [-D WORKGROUP_SIZE=wg_size]. *)
Class Toolchain (P : Type) := {
  read_file : string → option string;
  build : string → Z → P + build_failure
}.

(** [self.programs], whether [self.LOW_END] has been set, and the local
    variable [program] of the loop, unbound at first. *)
Record compiler (P : Type) := Compiler {
  programs : gmap string P;
  LOW_END : bool;
  program : option P
}.
Arguments Compiler {P} _ _ _.
Arguments programs {P} _.
Arguments LOW_END {P} _.
Arguments program {P} _.

Section Compilation.
Context {P : Type} `{Toolchain P}.
Local Open Scope outcome_scope.

(** One turn of the loop of lines 145-160 (the log records are left out). *)
Definition compile_kernel (max_workgroup_size : Z) (kernel : kernel_name)
    (st : compiler P) : outcome compile_exn (compiler P) :=
  match read_file (kernel_key kernel +:+ ".cl") with
  | None => Throw IOError
  | Some kernel_src =>
      let wg_size := Z.min max_workgroup_size (kernels kernel) in
      let* st :=
        match build kernel_src wg_size with
        | inl prog => Return (Compiler (programs st) (LOW_END st) (Some prog))
        | inr CL_MemoryError => Throw MemoryError
        | inr CL_RuntimeError =>
            if String.eqb (kernel_key kernel) "keypoints"
            then Return (Compiler (programs st) true (program st))
            else Throw RuntimeError
        | inr CL_OtherError => Throw OtherError
        end in
      match program st with
      | Some prog =>
          Return (Compiler (<[kernel_key kernel := prog]> (programs st))
                           (LOW_END st) (program st))
      | None => Throw UnboundLocalError
      end
  end.

Fixpoint compile_loop (max_workgroup_size : Z) (order : list kernel_name)
    (st : compiler P) : outcome compile_exn (compiler P) :=
  match order with
  | [] => Return st
  | kernel :: rest =>
      let* st := compile_kernel max_workgroup_size kernel st in
      compile_loop max_workgroup_size rest st
  end.

(** [_compile_kernels], called by the constructor on the empty
    [self.programs]. [order] is the order in which the dictionary
    [kernels] yields its keys. *)
Definition _compile_kernels (max_workgroup_size : Z)
    (order : list kernel_name) : outcome compile_exn (compiler P) :=
  compile_loop max_workgroup_size order (Compiler ∅ false None).

(** The exception in which a failed build ends. *)
Definition raised (f : build_failure) : compile_exn :=
  match f with
  | CL_MemoryError => MemoryError
  | CL_RuntimeError => RuntimeError
  | CL_OtherError => OtherError
  end.

(** Every stored program is the build of the kernel it is stored under. *)
Definition built_from (max_workgroup_size : Z) (st : compiler P) : Prop :=
  ∀ k prog, programs st !! kernel_key k = Some prog →
    ∃ src, read_file (kernel_key k +:+ ".cl") = Some src ∧
           build src (Z.min max_workgroup_size (kernels k)) = inl prog.

End Compilation.

End MatchPlan.

(** ** The device kernels, from the specification

    [matching_gpu.cl], [matching_cpu.cl] and [memset.cl] are not part of the
    two Python files; the definitions below follow sections 4.1 and 6 of the
    specification. *)

Module KernelSpec.
Import MatchPlan.

Section Kernels.
Context {F : Type}.
Local Open Scope Z_scope.

(** Modelled from the spec: the work items of a one-dimensional launch
    (missing: the OpenCL runtime), one per index below the global size. *)
Definition work_items (global : list Z) : list nat :=
  seq 0 (Z.to_nat (hd 0 global)).

(** Modelled from the spec: the kernel [memset_kp] (missing: memset.cl),
    which resets a keypoint buffer to sentinel values, the given number in
    every numeric field and the given byte in every descriptor byte; work
    item [gid] resets record [gid] when it lies below [n]. *)
Definition memset_kp_spec (global : list Z) (mem : list (keypoint F))
    (v : F) (b : Z) (n : Z) : writes (keypoint F) :=
  (λ gid, (gid, Keypoint v v v v (replicate 128 b)))
    <$> filter (λ gid, Z.of_nat gid < n) (work_items global).

(** Modelled from the spec: the kernel [memset_int] (missing: memset.cl),
    the same reset for a buffer of plain integers. *)
Definition memset_int_spec (global : list Z) (mem : list Z)
    (v : Z) (n : Z) : writes Z :=
  (λ gid, (gid, v)) <$> filter (λ gid, Z.of_nat gid < n) (work_items global).

(** Modelled from the spec: squared Euclidean distance in descriptor
    space (missing: the distance loop of the matching kernel). *)
Definition sqdist (d1 d2 : list Z) : Z :=
  foldr Z.add 0 (zip_with (λ a b, (a - b) * (a - b)) d1 d2).

(** Modelled from the spec: best and second-best candidate of one element
    of set A (missing: the scan of the matching kernel). The state is the
    index and distance of the best candidate so far and the second-best
    distance, if there is one; a tie keeps the lower index. *)
Definition scan_step (st : option (nat * Z * option Z)) (c : nat * Z)
    : option (nat * Z * option Z) :=
  match st with
  | None => Some (fst c, snd c, None)
  | Some (bi, bd, sec) =>
      if snd c <? bd then Some (fst c, snd c, Some bd)
      else Some (bi, bd, Some (match sec with
                               | None => snd c
                               | Some s => Z.min s (snd c)
                               end))
  end.

Definition best_two (ds : list Z) : option (nat * Z * option Z) :=
  foldl scan_step None (zip (seq 0 (length ds)) ds).

(** Modelled from the spec: the distance-ratio test
    [(best_distance / second_best_distance) <= ratio²] (missing: the test
    of the matching kernel). With a single candidate there is no second
    distance to divide by and the quotient counts as 0, as the
    one-against-one scenario of section 8 requires. [Qdiv] is total: a
    quotient by 0 is 0. *)
Definition ratio_test (r2 : Q) (best : Z) (second : option Z) : bool :=
  match second with
  | None => Qle_bool 0 r2
  | Some s => Qle_bool (inject_Z best / inject_Z s) r2
  end.

(** Modelled from the spec: the match of element [a] of set A against
    set B, if it is accepted (missing: the matching kernel). *)
Definition match_one (r2 : Q) (B : list (keypoint F)) (a : keypoint F)
    : option nat :=
  match best_two ((λ b, sqdist (desc a) (desc b)) <$> B) with
  | Some (bi, bd, sec) => if ratio_test r2 bd sec then Some bi else None
  | None => None
  end.

(** Modelled from the spec: the accepted matches of the first [n1]
    records of [A] against the first [n2] of [B], in ascending index in
    set A, as seen by the given work items. *)
Definition accepted (r2 : Q) (gids : list nat)
    (A B : list (keypoint F)) (n1 n2 : Z) : list (nat * nat) :=
  omap (λ gid,
          if Z.of_nat gid <? n1 then
            match A !! gid with
            | Some a =>
                match match_one r2 (take (Z.to_nat n2) B) a with
                | Some bi => Some (gid, bi)
                | None => None
                end
            | None => None
            end
          else None) gids.

(** Modelled from the spec: the output layout of the matching kernel
    (missing: matching_gpu.cl, matching_cpu.cl). Each accepted match takes
    the next value [old] of the running counter and, when [old] is below
    the capacity, its index pair goes to row [old] of the output. *)
Fixpoint pair_writes (capacity : Z) (old : Z) (ms : list (nat * nat))
    : writes Z :=
  match ms with
  | [] => []
  | (ia, ib) :: ms' =>
      (if (0 <=? old) && (old <? capacity) then
         [ (Z.to_nat (2 * old), Z.of_nat ia);
           (Z.to_nat (2 * old + 1), Z.of_nat ib) ]
       else [])
      ++ pair_writes capacity (old + 1) ms'
  end.

(** Modelled from the spec: the kernel [matching] (missing:
    matching_gpu.cl, matching_cpu.cl; both variants have the same
    semantics). It reads the two keypoint buffers, appends the accepted
    matches to the output and leaves their number in the counter. *)
Definition matching_spec (k : kernel_name) (global : list Z)
    (kp1 kp2 : list (keypoint F)) (out : list Z) (counter : list Z)
    (capacity : Z) (r2 : Q) (n1 n2 : Z) : writes Z * writes Z :=
  let ms := accepted r2 (work_items global) kp1 kp2 n1 n2 in
  let c0 := counter !!! 0%nat in
  (pair_writes capacity c0 ms, [(0%nat, c0 + Z.of_nat (length ms))]).

(** The kernels of the device [D] are the ones above. *)
Definition follows_spec (D : Device F) : Prop :=
  @memset_kp F D = memset_kp_spec ∧
  @memset_int F D = memset_int_spec ∧
  @matching F D = matching_spec.

(** A device whose kernels are the ones above. *)
Definition spec_device (minus_one : F) (ratio : Q)
    (garbage_kp : nat → keypoint F) (garbage_int : nat → Z)
    (cast : keypoint F → option (keypoint F)) : Device F :=
  {| float32_minus_one := minus_one;
     MatchRatio := ratio;
     uninit_kp := garbage_kp;
     uninit_int := garbage_int;
     memset_kp := memset_kp_spec;
     memset_int := memset_int_spec;
     matching := matching_spec;
     numpy_cast := cast |}.

(** The matches accepted between two keypoint sets at a given ratio: what
    the kernel finds when every element of set A has its work item and it
    is handed [ratio * ratio], as [match] does. *)
Definition matches_at (ratio : Q) (A B : list (keypoint F))
    : list (nat * nat) :=
  accepted (ratio * ratio)%Q (seq 0 (length A)) A B
           (Z.of_nat (length A)) (Z.of_nat (length B)).

End Kernels.

End KernelSpec.

(** ** The states of a call

    The plan after each step of [match], as functions of the plan before
    it, and the predicates used to state the properties. *)

(** [j] is a power of two. *)
Definition power_of_two (j : Z) : Prop := ∃ k : Z, (0 ≤ k)%Z ∧ j = (2 ^ k)%Z.

Section PlanStates.
Import Utils MatchPlan.
Context {F : Type} `{D : Device F}.

(** The plan after lines 180-188. *)
Definition grown (nkp1 nkp2 : hostarray F) (p : plan F) : plan F :=
  let p1 := if size (buf_Kp_1 p) <? size_of nkp1
            then set_Kp_1 (empty_kp [size_of nkp1]) p else p in
  let p2 := if size (buf_Kp_2 p1) <? size_of nkp2
            then set_Kp_2 (empty_kp [size_of nkp2]) p1 else p1 in
  if size (buf_match p2) <? size_of nkp2 `min` size_of nkp1
  then set_match (empty_int [size_of nkp2 `min` size_of nkp1]) p2 else p2.

(** The global size of the [memset] launch over a buffer. *)
Definition memset_global {A} (b : array A) : list Z :=
  calc_size [Z.of_nat (size b)] (BlockSeq [kernels memset]).

(** The plan after [_reset_buffer]. *)
Definition reset (p : plan F) : plan F :=
  let g {A} (b : array A) := memset_global b in
  let b1 := buf_Kp_1 p in
  let b2 := buf_Kp_2 p in
  let bm := buf_match p in
  let bc := buf_cnt p in
  Plan (profile p) (kpsize p) (USE_CPU p)
    (if profile p
     then events p ++ ["memset Kp1"; "memset Kp2"; "memset match"; "memset cnt"]%string
     else events p)
    (written (memset_kp (g b1) (data b1) float32_minus_one 0 (Z.of_nat (size b1))) b1)
    (written (memset_kp (g b2) (data b2) float32_minus_one 0 (Z.of_nat (size b2))) b2)
    (written (memset_int (g bm) (data bm) (-1) (Z.of_nat (size bm))) bm)
    (written (memset_int [1%Z] (data bc) 0 1) bc).

(** The plan after each of the two uploads. *)
Definition uploaded_1 (nkp1 : hostarray F) (p : plan F) : plan F :=
  set_Kp_1 (copy_into (items nkp1) (buf_Kp_1 p)) p.

Definition uploaded_2 (nkp2 : hostarray F) (p : plan F) : plan F :=
  set_Kp_2 (copy_into (items nkp2) (buf_Kp_2 p)) p.

Definition recorded (evs : list string) (p : plan F) : plan F :=
  if profile p then set_events (events p ++ evs) p else p.

(** The plan after the matching kernel has run. *)
Definition launched (nkp1 nkp2 : hostarray F) (p : plan F) : plan F :=
  let k := matching_kernel p in
  let g := calc_size [Z.of_nat (size_of nkp1)] (BlockSeq [kernels k]) in
  let w := matching k g
             (data (buf_Kp_1 p)) (data (buf_Kp_2 p))
             (data (buf_match p)) (data (buf_cnt p))
             (Z.of_nat (shape0 (buf_match p)))
             (MatchRatio * MatchRatio)%Q
             (Z.of_nat (size_of nkp1)) (Z.of_nat (size_of nkp2)) in
  set_cnt (written (snd w) (buf_cnt p))
    (set_match (written (fst w) (buf_match p)) p).

(** The value of lines 206-210 on the downloaded buffers. *)
Definition assembled (nkp1 nkp2 : hostarray F) (p : plan F)
    : result (list (keypoint F * keypoint F)) :=
  (let* sz := match data (buf_cnt p) !! 0 with
              | Some c => Ok c
              | None => Raise IndexError
              end in
   let* _ := if (sz <? 0)%Z then Raise ValueError else Ok tt in
   let n := Z.to_nat sz in
   let* i0 := column (buf_match p) n 0 in
   let* a := fancy_index nkp1 i0 in
   let* c0 := assign_column (dtype_ nkp1) n a in
   let* i1 := column (buf_match p) n 1 in
   let* b := fancy_index nkp2 i1 in
   let* c1 := assign_column (dtype_ nkp2) n b in
   Ok (zip c0 c1))%res.

(** The plan on which the result is assembled. *)
Definition matched (nkp1 nkp2 : hostarray F) (p : plan F) : plan F :=
  recorded ["matching"]%string
    (launched nkp1 nkp2
      (recorded ["copy H->D KP_1"; "copy H->D KP_2"]%string
        (uploaded_2 nkp2 (uploaded_1 nkp1 (reset (grown nkp1 nkp2 p)))))).

(** Outcome and final plan of the locked part of [match]. *)
Definition locked_outcome (nkp1 nkp2 : hostarray F) (p : plan F)
    : result (list (keypoint F * keypoint F)) * plan F :=
  let p2 := reset (grown nkp1 nkp2 p) in
  if length (items nkp1) <=? length (data (buf_Kp_1 p2)) then
    if length (items nkp2) <=? length (data (buf_Kp_2 p2)) then
      (assembled nkp1 nkp2 (matched nkp1 nkp2 p), matched nkp1 nkp2 p)
    else (Raise LogicError, uploaded_1 nkp1 p2)
  else (Raise LogicError, p2).

(** The four assertions of lines 174-177. *)
Definition checks (nkp1 nkp2 : hostarray F) : bool :=
  (ndim nkp1 =? 1) && (ndim nkp2 =? 1) && is_recarray nkp1 && is_recarray nkp2.

(** The shapes of the three data buffers. *)
Definition shapes (p : plan F) : list nat * list nat * list nat :=
  (shape (buf_Kp_1 p), shape (buf_Kp_2 p), shape (buf_match p)).

(** The number of index pairs that the memory of a buffer holds. *)
Definition pair_capacity (b : array Z) : nat := size b / 2.

(** The plan after the calls [match(a, b)] for [(a, b)] in [cs], in
    order, whether they return or raise. *)
Fixpoint after_calls (cs : list (hostarray F * hostarray F)) (p : plan F)
    : plan F :=
  match cs with
  | [] => p
  | c :: cs' => after_calls cs' (match_ c.1 c.2 p).1.2
  end.

(** The sentinel record: the number in every numeric field, the byte in
    each of the 128 descriptor bytes. *)
Definition sentinel_kp (v : F) (b : Z) : keypoint F :=
  Keypoint v v v v (replicate 128 b).

(** Every buffer has the memory its shape asks for; the counter has one
    entry. *)
Definition allocated (p : plan F) : Prop :=
  length (data (buf_Kp_1 p)) = size (buf_Kp_1 p) ∧
  length (data (buf_Kp_2 p)) = size (buf_Kp_2 p) ∧
  length (data (buf_match p)) = size (buf_match p) ∧
  length (data (buf_cnt p)) = 1.

(** All working buffers hold their sentinel values. *)
Definition all_sentinel (p : plan F) : Prop :=
  data (buf_Kp_1 p) =
    replicate (size (buf_Kp_1 p)) (sentinel_kp float32_minus_one 0) ∧
  data (buf_Kp_2 p) =
    replicate (size (buf_Kp_2 p)) (sentinel_kp float32_minus_one 0) ∧
  data (buf_match p) = replicate (size (buf_match p)) (-1)%Z ∧
  data (buf_cnt p) = [0%Z].

(** What happens before the uploads: log records, allocations and
    launches of the memset kernels. *)
Definition setup_event (ev : event) : Prop :=
  match ev with
  | Warning _ _ | Alloc _ _ | Launch memset _ _ _ => True
  | _ => False
  end.

End PlanStates.

(** ** The events of a call

    What a call of [match] does to the outside world and to [events], step
    by step, and plans across calls of several methods. *)

Section CallEvents.
Import Utils MatchPlan.
Context {F : Type} `{D : Device F}.

(** The log records and allocations of lines 180-188. *)
Definition grow_events (nkp1 nkp2 : hostarray F) (p : plan F) : list event :=
  (if size (buf_Kp_1 p) <? size_of nkp1
   then [Warning "increasing size of keypoint vector 1 to %i" (size_of nkp1);
         Alloc "Kp_1" [size_of nkp1]]
   else []) ++
  (if size (buf_Kp_2 p) <? size_of nkp2
   then [Warning "increasing size of keypoint vector 2 to %i" (size_of nkp2);
         Alloc "Kp_2" [size_of nkp2]]
   else []) ++
  (if size (buf_match p) <? size_of nkp2 `min` size_of nkp1
   then [Alloc "match" [size_of nkp2 `min` size_of nkp1]]
   else []).

(** The four launches of [_reset_buffer]. *)
Definition reset_events (p : plan F) : list event :=
  [ Launch memset "memset_kp" (memset_global (buf_Kp_1 p)) [kernels memset];
    Launch memset "memset_kp" (memset_global (buf_Kp_2 p)) [kernels memset];
    Launch memset "memset_int" (memset_global (buf_match p)) [kernels memset];
    Launch memset "memset_int" [1%Z] [1%Z] ].

(** The launch of lines 195-203. *)
Definition matching_launch (nkp1 : hostarray F) (p : plan F) : event :=
  Launch (matching_kernel p) "matching"
    (calc_size [Z.of_nat (size_of nkp1)] (BlockSeq [kernels (matching_kernel p)]))
    [kernels (matching_kernel p)].

(** The labels that a call adds to [events] under profiling, in order. *)
Definition profile_labels : list string :=
  [ "memset Kp1"; "memset Kp2"; "memset match"; "memset cnt";
    "copy H->D KP_1"; "copy H->D KP_2"; "matching" ]%string.

(** The attributes of a plan that [match] reads and never writes. *)
Definition attributes (p : plan F) : bool * nat * bool :=
  (profile p, kpsize p, USE_CPU p).

(** A call of one of the two methods that touch [events]. *)
Inductive method_call :=
  | CallMatch (nkp1 nkp2 : hostarray F)
  | CallResetTimer.

(** The plan after a method call, whether it returns or raises, and after
    a sequence of them. *)
Definition after_method (c : method_call) (p : plan F) : plan F :=
  match c with
  | CallMatch nkp1 nkp2 => (match_ nkp1 nkp2 p).1.2
  | CallResetTimer => (reset_timer p).1.2
  end.

Definition after_methods (cs : list method_call) (p : plan F) : plan F :=
  foldl (λ p c, after_method c p) p cs.

End CallEvents.

(** ** Concrete data for the examples *)

Module Examples.
Import MatchPlan KernelSpec.
Local Open Scope Z_scope.

(** Integer arithmetic as a [Scalar]. *)
Definition Z_scalar : Utils.Scalar Z :=
  {| Utils.zero := 0; Utils.one := 1; Utils.add := Z.add; Utils.mul := Z.mul |}.

(** Three matches generated by [x' = 2x + y + 3], [y' = -x + y + 1]. *)
Definition pt (px py : Z) : keypoint Z := Keypoint px py 1 0 [].

Definition sample_matching : list (keypoint Z * keypoint Z) :=
  [ (pt 0 0, pt 3 1); (pt 1 0, pt 5 0); (pt 0 1, pt 4 2) ].

Definition of_rows (rows : list (list Z)) : Utils.ndarray Z :=
  Utils.NDArray 6 6 (λ i j, nth j (nth i rows []) 0).

(** The normal matrix of [sample_matching] and its inverse. *)
Definition sample_normal : Utils.ndarray Z :=
  of_rows [ [1; 0; 1; 0; 0; 0]; [0; 1; 1; 0; 0; 0]; [1; 1; 3; 0; 0; 0];
            [0; 0; 0; 1; 0; 1]; [0; 0; 0; 0; 1; 1]; [0; 0; 0; 1; 1; 3] ].

Definition sample_inverse : Utils.ndarray Z :=
  of_rows [ [2; 1; -1; 0; 0; 0]; [1; 2; -1; 0; 0; 0]; [-1; -1; 1; 0; 0; 0];
            [0; 0; 0; 2; 1; -1]; [0; 0; 0; 1; 2; -1]; [0; 0; 0; -1; -1; 1] ].

Definition same_items (A B : Utils.ndarray Z) : bool :=
  (Utils.nrows A =? Utils.nrows B)%nat && (Utils.ncols A =? Utils.ncols B)%nat &&
  forallb (λ i, forallb (λ j, Utils.item A i j =? Utils.item B i j)
                        (seq 0 (Utils.ncols B)))
          (seq 0 (Utils.nrows B)).


(** An inverse that knows this one matrix. *)
Definition sample_linalg : Utils.LinAlg Z :=
  {| Utils.inv := λ A, if same_items A sample_normal
                       then Some sample_inverse else None |}.

(** A device with the kernels of [KernelSpec], coordinates in [Z]. *)
Definition dev (ratio : Q) : Device Z :=
  spec_device (-1) ratio (λ _, Keypoint 7 7 7 7 []) (λ _, 99) Some.

(** A keypoint at [(c, c)] with descriptor [d]. *)
Definition kp (c : Z) (d : list Z) : keypoint Z := Keypoint c c 1 0 d.

(** A rank-1 record array of keypoints, and one of another dtype. *)
Definition recarray_of (l : list (keypoint Z)) : hostarray Z :=
  HostArray 1 numpy_recarray dtype_kp l.

Definition foreign_recarray_of (l : list (keypoint Z)) : hostarray Z :=
  HostArray 1 numpy_recarray dtype_other l.

(** [MatchPlan(size=size)] on that device, without profiling. *)
Definition fresh_plan (ratio : Q) (size : nat) : plan Z :=
  @__init__ Z (dev ratio) size false false.

(** [MatchPlan(size=size).match(a, b)] *)
Definition call (ratio : Q) (size : nat) (a b : hostarray Z)
    : result (list (keypoint Z * keypoint Z)) * plan Z * list event :=
  @match_ Z (dev ratio) a b (fresh_plan ratio size).

(** [MatchPlan(size=size, profile=True)] on that device. *)
Definition profiling_plan (ratio : Q) (size : nat) : plan Z :=
  @__init__ Z (dev ratio) size false true.

(** The float [1.6]. *)
Definition float_1_6 : Utils.float64 :=
  S754_finite false 7205759403792794 (-52).

(** A toolchain that reads every file and builds every source: a program
    is its source and its work-group size. *)
Definition echo_toolchain : Toolchain (string * Z) :=
  {| read_file := λ name, Some name;
     build := λ src wg_size, inl (src, wg_size) |}.

(** A toolchain that cannot read [memset.cl] and cannot build
    [matching_cpu.cl]. *)
Definition faulty_toolchain : Toolchain (string * Z) :=
  {| read_file := λ name,
       if String.eqb name "memset.cl" then None else Some name;
     build := λ src wg_size,
       if String.eqb src "matching_cpu.cl" then inr CL_RuntimeError
       else inl (src, wg_size) |}.





End Examples.

(** ** Degenerate matchings *)



(** * Properties *)

(** ** [calc_size] *)

Section CalcSize.
Import Utils.
Local Open Scope Z_scope.

Lemma round_to_block_div i j :
  power_of_two j → round_to_block i j = (i + j - 1) / j * j.
Proof.
  intros (k & Hk & ->). unfold round_to_block.
  rewrite <- Z.ldiff_land.
  replace (2 ^ k - 1) with (Z.ones k) by (rewrite Z.ones_equiv; lia).
  rewrite Z.ldiff_ones_r by assumption.
  rewrite Z.shiftl_mul_pow2, Z.shiftr_div_pow2 by assumption.
  reflexivity.
Qed.

Lemma power_of_two_pos j : power_of_two j → 0 < j.
Proof. intros (k & Hk & ->). apply Z.pow_pos_nonneg; lia. Qed.

(** [(i + j - 1) / j * j] is the least multiple of [j] that is not
    below [i]. *)
Lemma ceil_multiple_least i j :
  0 < j →
  let r := (i + j - 1) / j * j in
  i ≤ r ∧ r < i + j ∧ (j | r) ∧ ∀ m, (j | m) → i ≤ m → r ≤ m.
Proof.
  intros Hj r. subst r.
  pose proof (Z.div_mod (i + j - 1) j ltac:(lia)) as Hdm.
  pose proof (Z.mod_pos_bound (i + j - 1) j Hj) as Hmod.
  set (q := (i + j - 1) / j) in *.
  repeat split.
  - nia.
  - nia.
  - exists q. reflexivity.
  - intros m [t ->] Hle.
    assert (q ≤ t); [|nia].
    destruct (Z.le_gt_cases q t) as [|Hlt]; [assumption|].
    assert (t + 1 ≤ q) by lia. nia.
Qed.

Lemma round_to_block_spec i j :
  power_of_two j →
  let r := round_to_block i j in
  r = (i + j - 1) / j * j ∧
  i ≤ r ∧ r < i + j ∧ (j | r) ∧ ∀ m, (j | m) → i ≤ m → r ≤ m.
Proof.
  intros Hp r. subst r. rewrite (round_to_block_div i j Hp).
  split; [reflexivity|].
  apply ceil_multiple_least, power_of_two_pos, Hp.
Qed.

Lemma kernels_power_of_two k : power_of_two (MatchPlan.kernels k).
Proof.
  destruct k; [exists 6 | exists 4 | exists 7]; split; (lia || reflexivity).
Qed.

Lemma calc_size_lookup shape b d i j :
  shape !! d = Some i → block_at b d = Some j →
  calc_size shape b !! d = Some (round_to_block i j).
Proof.
  intros Hi Hj. destruct b as [js|j0]; simpl in *.
  - rewrite lookup_zip_with, Hi. simpl. rewrite Hj. reflexivity.
  - injection Hj as ->. rewrite list_lookup_fmap, Hi. reflexivity.
Qed.

Lemma calc_size_length shape b :
  length (calc_size shape b) =
  match b with
  | BlockSeq js => (length shape `min` length js)%nat
  | BlockInt _ => length shape
  end.
Proof.
  destruct b; simpl.
  - apply length_zip_with.
  - apply length_fmap.
Qed.

Lemma block_at_entry b d j :
  block_at b d = Some j → j ∈ block_entries b.
Proof.
  destruct b as [js|j0]; simpl.
  - apply list_elem_of_lookup_2.
  - intros [= ->]. apply list_elem_of_here.
Qed.

(** The global size of a one-dimensional launch over [n] items. *)
Lemma calc_size_launch k n :
  ∃ g, calc_size [n] (BlockSeq [MatchPlan.kernels k]) = [g] ∧
       n ≤ g ∧ g < n + MatchPlan.kernels k ∧ (MatchPlan.kernels k | g).
Proof.
  exists (round_to_block n (MatchPlan.kernels k)).
  split; [reflexivity|].
  pose proof (round_to_block_spec n _ (kernels_power_of_two k)) as Hs.
  simpl in Hs. intuition.
Qed.

End CalcSize.

(** C10. For every shape and every blocksize whose entries are powers of
    two, [calc_size shape blocksize] holds, in each dimension that has a
    block size, the least multiple of the block size that is greater than or
    equal to the dimension, [ceil(i / b) * b]; a sequence of block sizes is
    zipped with the shape. Hence the global size of every one-dimensional
    launch of the plan, [calc_size (n,) (kernels[k],)], covers its [n] work
    items. *)
Theorem calc_size_least_multiple (shape : list Z) (b : Utils.blocksize) :
  Forall power_of_two (Utils.block_entries b) →
  length (Utils.calc_size shape b) =
    match b with
    | Utils.BlockSeq js => (length shape `min` length js)%nat
    | Utils.BlockInt _ => length shape
    end ∧
  (∀ d i j, shape !! d = Some i → Utils.block_at b d = Some j →
     ∃ r, Utils.calc_size shape b !! d = Some r ∧
          r = ((i + j - 1) / j * j)%Z ∧
          (i ≤ r)%Z ∧ (r < i + j)%Z ∧ (j | r)%Z ∧
          ∀ m, (j | m)%Z → (i ≤ m)%Z → (r ≤ m)%Z) ∧
  (∀ k n, ∃ g,
     Utils.calc_size [n] (Utils.BlockSeq [MatchPlan.kernels k]) = [g] ∧
     (n ≤ g)%Z ∧ (MatchPlan.kernels k | g)%Z).
Proof.
  intros Hpow. split; [apply calc_size_length|]. split.
  - intros d i j Hi Hj.
    exists (Utils.round_to_block i j).
    split; [apply calc_size_lookup; assumption|].
    apply round_to_block_spec.
    rewrite Forall_forall in Hpow. apply Hpow.
    eapply block_at_entry, Hj.
  - intros k n. destruct (calc_size_launch k n) as (g & Hg & Hle & _ & Hdiv).
    exists g. auto.
Qed.

Lemma calc_size_least_multiple_witness :
  ∃ r, Utils.calc_size [5; 7]%Z (Utils.BlockSeq [4; 8]%Z) !! 1%nat = Some r ∧
       r = 8%Z.
Proof.
  assert (Hpow : Forall power_of_two (Utils.block_entries (Utils.BlockSeq [4; 8]%Z))).
  { simpl. repeat constructor; [exists 2%Z | exists 3%Z]; split; (lia || reflexivity). }
  destruct (calc_size_least_multiple [5; 7]%Z (Utils.BlockSeq [4; 8]%Z) Hpow)
    as (_ & Hdim & _).
  destruct (Hdim 1%nat 7%Z 8%Z eq_refl eq_refl) as (r & Hr & Heq & _).
  exists r. split; [exact Hr|]. rewrite Heq. reflexivity.
Defined.

(** ** [matching_correction] *)

Section MatchingCorrection.
Import Utils.
Context {T : Type} `{Scalar T} `{LinAlg T}.










(** Row [r] of a concatenation of two-row blocks. *)
Lemma lookup_join_pairs {A B} (f : A → list B) (l : list A) k a :
  (∀ a, length (f a) = 2) →
  l !! k = Some a →
  mjoin (f <$> l) !! (2 * k) = f a !! 0 ∧
  mjoin (f <$> l) !! (2 * k + 1) = f a !! 1.
Proof.
  intros Hlen. revert k. induction l as [|b l IH]; intros k Hk.
  - destruct k; discriminate.
  - simpl. pose proof (Hlen b) as Hb.
    destruct (f b) as [|u [|v [|? ?]]] eqn:Hfb; simpl in Hb; try lia.
    destruct k as [|k]; simpl in *.
    + injection Hk as <-. rewrite Hfb. split; reflexivity.
    + destruct (IH k Hk) as [IH0 IH1].
      replace (k + S (k + 0)) with (S (2 * k)) by lia.
      replace (S (2 * k) + 1) with (S (2 * k + 1)) by lia.
      simpl. split; assumption.
Qed.



End MatchingCorrection.

Section MatchingCorrectionDesign.
Import Utils.
Context {T : Type} `{Scalar T} `{LinAlg T}.









End MatchingCorrectionDesign.


(** ** Singular systems *)

Section SingularSystems.
Import Utils.
Local Open Scope Z_scope.
Local Existing Instance Examples.Z_scalar.









End SingularSystems.

Section MatchingCorrectionRun.
Import Utils.
Context {T : Type} `{Scalar T} `{LinAlg T}.


End MatchingCorrectionRun.





(** ** The monad of [MatchPlan] calls *)

Section MonadLaws.
Import MatchPlan.
Context {F : Type} `{Device F}.

Lemma bind_run {A B} (m : M F A) (k : A → M F B) (p : plan F) a p1 t1 :
  m p = (Ok a, p1, t1) →
  ∀ r p2 t2, k a p1 = (r, p2, t2) → bind m k p = (r, p2, t1 ++ t2).
Proof.
  intros Hm r p2 t2 Hk. unfold bind. rewrite Hm, Hk. reflexivity.
Qed.

Lemma bind_raise {A B} (m : M F A) (k : A → M F B) (p : plan F) e p1 t1 :
  m p = (Raise e, p1, t1) → bind m k p = (Raise e, p1, t1).
Proof. intros Hm. unfold bind. rewrite Hm. reflexivity. Qed.

Lemma with_sem_inv {A} (m : M F A) (p : plan F) r p1 t :
  with_sem m p = (r, p1, t) →
  ∃ t1, m p = (r, p1, t1) ∧ t = Acquire :: t1 ++ [Release].
Proof.
  unfold with_sem. destruct (m p) as [[r' p'] t']. intros [= -> -> <-].
  exists t'. auto.
Qed.

End MonadLaws.

(** ** The steps of [MatchPlan.match], one by one *)

Section Steps.
Import Utils MatchPlan.
Context {F : Type} `{Device F}.
Local Open Scope plan_scope.

Lemma grow_buffers_run (nkp1 nkp2 : hostarray F) (p : plan F) :
  ∃ t, grow_buffers nkp1 nkp2 p = (Ok tt, grown nkp1 nkp2 p, t) ∧
       Forall (λ ev, ∃ s n, ev = Warning s n ∨ ev = Alloc s [n]) t.
Proof.
  unfold grow_buffers, grown, bind, get, emit, modify, ret.
  destruct p as [prof ks cpu evs b1 b2 bm bc]. cbn -[Nat.ltb Nat.min].
  destruct (size b1 <? size_of nkp1); cbn -[Nat.ltb Nat.min];
    destruct (size b2 <? size_of nkp2); cbn -[Nat.ltb Nat.min];
    destruct (size bm <? size_of nkp2 `min` size_of nkp1); cbn -[Nat.ltb Nat.min];
    (eexists; split; [reflexivity|]);
    repeat constructor; eauto.
Qed.

Lemma _reset_buffer_run (p : plan F) :
  ∃ t, _reset_buffer p = (Ok tt, reset p, t) ∧
       Forall (λ ev, ∃ e g l, ev = Launch memset e g l) t.
Proof.
  unfold _reset_buffer, reset, memset_global, record_events, bind, get, put,
    emit, modify, ret.
  destruct p as [prof ks cpu evs b1 b2 bm bc]. cbn.
  destruct prof; cbn; (eexists; split; [reflexivity|]);
    repeat constructor; eauto.
Qed.

End Steps.

Section StepsOfMatch.
Import Utils MatchPlan.
Context {F : Type} `{Device F}.
Local Open Scope plan_scope.

Lemma enqueue_copy_Kp_1_run (nkp1 : hostarray F) (p : plan F) :
  enqueue_copy_Kp_1 nkp1 p =
  if length (items nkp1) <=? length (data (buf_Kp_1 p))
  then (Ok tt, uploaded_1 nkp1 p, [CopyH2D "Kp_1"])
  else (Raise LogicError, p, []).
Proof.
  unfold enqueue_copy_Kp_1, uploaded_1, bind, get, emit, modify, raise.
  cbn -[Nat.leb]. destruct (_ <=? _); reflexivity.
Qed.

Lemma enqueue_copy_Kp_2_run (nkp2 : hostarray F) (p : plan F) :
  enqueue_copy_Kp_2 nkp2 p =
  if length (items nkp2) <=? length (data (buf_Kp_2 p))
  then (Ok tt, uploaded_2 nkp2 p, [CopyH2D "Kp_2"])
  else (Raise LogicError, p, []).
Proof.
  unfold enqueue_copy_Kp_2, uploaded_2, bind, get, emit, modify, raise.
  cbn -[Nat.leb]. destruct (_ <=? _); reflexivity.
Qed.

Lemma record_events_run evs (p : plan F) :
  record_events evs p = (Ok tt, recorded evs p, []).
Proof.
  unfold record_events, recorded, bind, get, put, ret. cbn.
  destruct (profile p); reflexivity.
Qed.

Lemma launch_matching_run (nkp1 nkp2 : hostarray F) (p : plan F) :
  launch_matching nkp1 nkp2 p =
  (Ok tt, launched nkp1 nkp2 p,
   [Launch (matching_kernel p) "matching"
      (calc_size [Z.of_nat (size_of nkp1)] (BlockSeq [kernels (matching_kernel p)]))
      [kernels (matching_kernel p)]]).
Proof. reflexivity. Qed.

Lemma assemble_run (nkp1 nkp2 : hostarray F) (p : plan F) :
  ∃ t, assemble nkp1 nkp2 p = (assembled nkp1 nkp2 p, p, t) ∧
       Forall (λ ev, ∃ s, ev = Get s) t.
Proof.
  unfold assemble, assembled, bind, get, emit, lift, ret, rbind.
  cbn -[Z.ltb column fancy_index assign_column].
  destruct (data (buf_cnt p) !! 0) as [sz|];
    cbn -[Z.ltb column fancy_index assign_column];
    [|eexists; split; [reflexivity|]; repeat constructor; eauto].
  destruct (sz <? 0)%Z;
    cbn -[Z.ltb column fancy_index assign_column];
    [eexists; split; [reflexivity|]; repeat constructor; eauto|].
  destruct (column (buf_match p) (Z.to_nat sz) 0) as [i0|];
    cbn -[column fancy_index assign_column];
    [|eexists; split; [reflexivity|]; repeat constructor; eauto].
  destruct (fancy_index nkp1 i0) as [a|];
    cbn -[column fancy_index assign_column];
    [|eexists; split; [reflexivity|]; repeat constructor; eauto].
  destruct (assign_column (dtype_ nkp1) (Z.to_nat sz) a) as [c0|];
    cbn -[column fancy_index assign_column];
    [|eexists; split; [reflexivity|]; repeat constructor; eauto].
  destruct (column (buf_match p) (Z.to_nat sz) 1) as [i1|];
    cbn -[column fancy_index assign_column];
    [|eexists; split; [reflexivity|]; repeat constructor; eauto].
  destruct (fancy_index nkp2 i1) as [b|];
    cbn -[column fancy_index assign_column];
    [|eexists; split; [reflexivity|]; repeat constructor; eauto].
  destruct (assign_column (dtype_ nkp2) (Z.to_nat sz) b) as [c1|];
    cbn -[column fancy_index assign_column];
    eexists; (split; [reflexivity|]); repeat constructor; eauto.
Qed.

Lemma after_uploads_run (nkp1 nkp2 : hostarray F) (p : plan F) :
  ∃ t, (record_events ["copy H->D KP_1"; "copy H->D KP_2"]%string ;;
        launch_matching nkp1 nkp2 ;;
        record_events ["matching"]%string ;;
        assemble nkp1 nkp2) p =
       (assembled nkp1 nkp2
          (recorded ["matching"]%string
             (launched nkp1 nkp2
                (recorded ["copy H->D KP_1"; "copy H->D KP_2"]%string p))),
        recorded ["matching"]%string
          (launched nkp1 nkp2
             (recorded ["copy H->D KP_1"; "copy H->D KP_2"]%string p)),
        t).
Proof.
  destruct (assemble_run nkp1 nkp2
              (recorded ["matching"]%string
                 (launched nkp1 nkp2
                    (recorded ["copy H->D KP_1"; "copy H->D KP_2"]%string p))))
    as (t3 & Hasm & _).
  eexists.
  eapply bind_run; [apply record_events_run|].
  eapply bind_run; [apply launch_matching_run|].
  eapply bind_run; [apply record_events_run|].
  exact Hasm.
Qed.

Lemma uploads_run (nkp1 nkp2 : hostarray F) (p2 : plan F) :
  ∃ t, after_reset nkp1 nkp2 p2 =
       if length (items nkp1) <=? length (data (buf_Kp_1 p2)) then
         if length (items nkp2) <=? length (data (buf_Kp_2 p2)) then
           (assembled nkp1 nkp2
              (recorded ["matching"]%string
                 (launched nkp1 nkp2
                    (recorded ["copy H->D KP_1"; "copy H->D KP_2"]%string
                       (uploaded_2 nkp2 (uploaded_1 nkp1 p2))))),
            recorded ["matching"]%string
              (launched nkp1 nkp2
                 (recorded ["copy H->D KP_1"; "copy H->D KP_2"]%string
                    (uploaded_2 nkp2 (uploaded_1 nkp1 p2)))),
            t)
         else (Raise LogicError, uploaded_1 nkp1 p2, t)
       else (Raise LogicError, p2, t).
Proof.
  unfold after_reset.
  pose proof (enqueue_copy_Kp_1_run nkp1 p2) as Hc1.
  pose proof (enqueue_copy_Kp_2_run nkp2 (uploaded_1 nkp1 p2)) as Hc2.
  change (buf_Kp_2 (uploaded_1 nkp1 p2)) with (buf_Kp_2 p2) in Hc2.
  destruct (length (items nkp1) <=? length (data (buf_Kp_1 p2))).
  2:{ eexists. eapply bind_raise, Hc1. }
  destruct (length (items nkp2) <=? length (data (buf_Kp_2 p2))).
  2:{ eexists. eapply bind_run; [exact Hc1|]. eapply bind_raise, Hc2. }
  destruct (after_uploads_run nkp1 nkp2 (uploaded_2 nkp2 (uploaded_1 nkp1 p2)))
    as (t3 & Hrest).
  eexists.
  eapply bind_run; [exact Hc1|].
  eapply bind_run; [exact Hc2|].
  exact Hrest.
Qed.

Lemma match_locked_run (nkp1 nkp2 : hostarray F) (p : plan F) :
  ∃ t, match_locked nkp1 nkp2 p = (locked_outcome nkp1 nkp2 p, t).
Proof.
  destruct (grow_buffers_run nkp1 nkp2 p) as (t1 & Hgrow & _).
  destruct (_reset_buffer_run (grown nkp1 nkp2 p)) as (t2 & Hreset & _).
  destruct (uploads_run nkp1 nkp2 (reset (grown nkp1 nkp2 p))) as (t3 & Hup).
  exists (t1 ++ t2 ++ t3).
  unfold match_locked, locked_outcome, matched.
  destruct (length (items nkp1) <=? length (data (buf_Kp_1 (reset (grown nkp1 nkp2 p)))));
    [destruct (length (items nkp2) <=? length (data (buf_Kp_2 (reset (grown nkp1 nkp2 p)))))|];
    (eapply bind_run; [exact Hgrow|]);
    (eapply bind_run; [exact Hreset|]);
    exact Hup.
Qed.

Lemma match_run (nkp1 nkp2 : hostarray F) (p : plan F) :
  match_ nkp1 nkp2 p =
  if checks nkp1 nkp2 then with_sem (match_locked nkp1 nkp2) p
  else (Raise AssertionError, p, []).
Proof.
  unfold match_, checks, assert_, bind, ret, raise.
  destruct (ndim nkp1 =? 1); [|reflexivity].
  destruct (ndim nkp2 =? 1); [|reflexivity].
  destruct (is_recarray nkp1); [|reflexivity].
  destruct (is_recarray nkp2); [|reflexivity].
  cbn [andb app]. destruct (with_sem _ p) as [[r p1] t]. reflexivity.
Qed.

(** A call that returns went through the whole of the locked part. *)
Lemma match_ok_inv (nkp1 nkp2 : hostarray F) (p : plan F) res p' t :
  match_ nkp1 nkp2 p = (Ok res, p', t) →
  checks nkp1 nkp2 = true ∧
  p' = matched nkp1 nkp2 p ∧
  assembled nkp1 nkp2 p' = Ok res.
Proof.
  rewrite match_run. destruct (checks nkp1 nkp2); [|discriminate].
  intros Hsem. apply with_sem_inv in Hsem as (t1 & Hlocked & _).
  destruct (match_locked_run nkp1 nkp2 p) as (t2 & Hrun).
  rewrite Hrun in Hlocked. unfold locked_outcome in Hlocked.
  destruct (length (items nkp1) <=? _); [|discriminate].
  destruct (length (items nkp2) <=? _); [|discriminate].
  injection Hlocked as Hres Hp _.
  subst p'. auto.
Qed.

End StepsOfMatch.

(** ** Assembly of the result *)

Section Assembly.
Import Utils MatchPlan.
Context {F : Type} `{Device F}.

Lemma rmapM_ok_inv {A B} (f : A → result B) l bs :
  rmapM f l = Ok bs →
  length bs = length l ∧
  ∀ i a, l !! i = Some a → ∃ b, f a = Ok b ∧ bs !! i = Some b.
Proof.
  revert bs. induction l as [|a l IH]; intros bs Hm; simpl in Hm.
  - injection Hm as <-. split; [reflexivity|]. intros [|i] ? [=].
  - destruct (f a) as [b|] eqn:Hfa; [|discriminate].
    destruct (rmapM f l) as [bs'|]; [|discriminate].
    injection Hm as <-. destruct (IH bs' eq_refl) as [Hlen Hat].
    split; [simpl; congruence|].
    intros [|i] a' Hi; simpl in Hi.
    + injection Hi as <-. exists b. auto.
    + apply Hat, Hi.
Qed.

Lemma rmapM_cast_kp (vals : list (keypoint F)) :
  rmapM (cast_item dtype_kp) vals = Ok vals.
Proof.
  induction vals as [|v vals IH]; [reflexivity|].
  simpl. rewrite IH. reflexivity.
Qed.

Lemma column_ok_inv (m : array Z) n c l :
  column m n c = Ok l →
  ∃ rows cols, shape m = [rows; cols] ∧ c < cols ∧
    l = (λ i, data m !!! (i * cols + c)) <$> seq 0 (n `min` rows).
Proof.
  unfold column. destruct (shape m) as [|rows [|cols [|? ?]]]; try discriminate.
  destruct (Nat.ltb_spec c cols); [|discriminate].
  intros [= <-]. exists rows, cols. auto.
Qed.

(** A rank-1 downloaded array cannot be indexed by [[:n, c]]. *)
Lemma column_rank1 (m : array Z) k n c :
  shape m = [k] → column m n c = Raise IndexError.
Proof. intros Hs. unfold column. rewrite Hs. reflexivity. Qed.

Lemma assign_column_kp_inv n (vals c0 : list (keypoint F)) :
  assign_column dtype_kp n vals = Ok c0 →
  length c0 = n ∧
  ((length vals = n ∧ c0 = vals) ∨
   (∃ v, vals = [v] ∧ c0 = replicate n v)).
Proof.
  unfold assign_column. rewrite rmapM_cast_kp.
  destruct (Nat.eqb_spec (length vals) n) as [Hn|Hn].
  - intros [= <-]. auto.
  - destruct vals as [|v [|? ?]]; try discriminate.
    intros [= <-]. split; [apply length_replicate|]. right. eauto.
Qed.

(** One column of the result: row [i] holds the host record that the
    [i]-th downloaded index designates. *)
Lemma result_column (nkp : hostarray F) (m : array Z) n c idx recs col :
  column m n c = Ok idx →
  fancy_index nkp idx = Ok recs →
  assign_column dtype_kp n recs = Ok col →
  length col = n ∧
  ∀ i rows cols, shape m = [rows; cols] → i < n → i < rows →
    ∃ k, getitem (items nkp) (data m !!! (i * cols + c)) = Ok k ∧
         col !! i = Some k.
Proof.
  intros Hcol Hidx Hassign.
  destruct (column_ok_inv _ _ _ _ Hcol) as (rows & cols & Hshape & Hc & ->).
  destruct (rmapM_ok_inv _ _ _ Hidx) as [Hlen Hat].
  rewrite length_fmap, length_seq in Hlen.
  destruct (assign_column_kp_inv _ _ _ Hassign) as [Hn Hcase].
  split; [exact Hn|].
  intros i rows' cols' Hshape' Hin Hir.
  rewrite Hshape in Hshape'. injection Hshape' as <- <-.
  assert (Hlook : ((λ j, data m !!! (j * cols + c)) <$> seq 0 (n `min` rows)) !! i
                  = Some (data m !!! (i * cols + c))).
  { rewrite list_lookup_fmap, lookup_seq_lt by lia. reflexivity. }
  destruct (Hat _ _ Hlook) as (k & Hget & Hk).
  exists k. split; [exact Hget|].
  destruct Hcase as [[_ ->]|(v & -> & ->)]; [exact Hk|].
  simpl in Hlen. assert (i = 0) by lia. subst i.
  simpl in Hk. injection Hk as <-.
  apply lookup_replicate_2. lia.
Qed.

Lemma index_pair_inv (m : array Z) i m0 m1 :
  index_pair m i = Some (m0, m1) →
  ∃ rows, shape m = [rows; 2] ∧ i < rows ∧
    m0 = data m !!! (i * 2 + 0) ∧ m1 = data m !!! (i * 2 + 1).
Proof.
  unfold index_pair.
  destruct (shape m) as [|rows [|[|[|[|cols]]] [|? ?]]]; try discriminate.
  destruct (Nat.ltb_spec i rows); [|discriminate].
  intros [= <- <-]. exists rows.
  replace (i * 2 + 0) with (2 * i) by lia.
  replace (i * 2 + 1) with (2 * i + 1) by lia. auto.
Qed.

Lemma assembled_ok_inv (nkp1 nkp2 : hostarray F) (p : plan F) res :
  dtype_ nkp1 = dtype_kp → dtype_ nkp2 = dtype_kp →
  assembled nkp1 nkp2 p = Ok res →
  ∃ sz, data (buf_cnt p) !! 0 = Some sz ∧ (0 ≤ sz)%Z ∧
    length res = Z.to_nat sz ∧
    (∀ rows, shape (buf_match p) = [rows; 2] → rows ≠ 1 →
       Z.to_nat sz ≤ rows) ∧
    ∀ i m0 m1, i < Z.to_nat sz →
      index_pair (buf_match p) i = Some (m0, m1) →
      ∃ ka kb, getitem (items nkp1) m0 = Ok ka ∧
               getitem (items nkp2) m1 = Ok kb ∧
               res !! i = Some (ka, kb).
Proof.
  intros Hd1 Hd2. unfold assembled, rbind. rewrite Hd1, Hd2.
  destruct (data (buf_cnt p) !! 0) as [sz|]; [|discriminate].
  destruct (Z.ltb_spec sz 0); [discriminate|].
  destruct (column (buf_match p) (Z.to_nat sz) 0) as [i0|] eqn:Hi0; [|discriminate].
  destruct (fancy_index nkp1 i0) as [a|] eqn:Ha; [|discriminate].
  destruct (assign_column dtype_kp (Z.to_nat sz) a) as [c0|] eqn:Hc0; [|discriminate].
  destruct (column (buf_match p) (Z.to_nat sz) 1) as [i1|] eqn:Hi1; [|discriminate].
  destruct (fancy_index nkp2 i1) as [b|] eqn:Hb; [|discriminate].
  destruct (assign_column dtype_kp (Z.to_nat sz) b) as [c1|] eqn:Hc1; [|discriminate].
  intros [= <-].
  destruct (result_column _ _ _ _ _ _ _ Hi0 Ha Hc0) as [Hl0 Hat0].
  destruct (result_column _ _ _ _ _ _ _ Hi1 Hb Hc1) as [Hl1 Hat1].
  exists sz. split; [reflexivity|]. split; [assumption|].
  split; [rewrite length_zip; lia|]. split.
  - intros rows Hshape Hrows.
    destruct (column_ok_inv _ _ _ _ Hi0) as (rows' & cols' & Hshape' & _ & ->).
    rewrite Hshape in Hshape'. injection Hshape' as <- <-.
    destruct (rmapM_ok_inv _ _ _ Ha) as [Hlen _].
    rewrite length_fmap, length_seq in Hlen.
    destruct (assign_column_kp_inv _ _ _ Hc0) as [_ [[Hn _]|(v & -> & _)]].
    + lia.
    + simpl in Hlen. lia.
  - intros i m0 m1 Hi Hpair.
    destruct (index_pair_inv _ _ _ _ Hpair) as (rows & Hshape & Hir & -> & ->).
    destruct (Hat0 i rows 2 Hshape Hi Hir) as (ka & Hka & Hc0i).
    destruct (Hat1 i rows 2 Hshape Hi Hir) as (kb & Hkb & Hc1i).
    exists ka, kb. split; [exact Hka|]. split; [exact Hkb|].
    rewrite lookup_zip_with, Hc0i. simpl. rewrite Hc1i. reflexivity.
Qed.

End Assembly.

(** ** A match buffer with a single row *)

Section SingleRow.
Import Utils MatchPlan.
Context {F : Type} `{Device F}.

(** A column of a one-row array, assigned to [n] rows: numpy repeats the
    only record. *)
Lemma single_row_column (nkp : hostarray F) (m : array Z) n c col :
  shape m = [1; 2] → 0 < n →
  (let* idx := column m n c in
   let* recs := fancy_index nkp idx in
   assign_column dtype_kp n recs)%res = Ok col →
  c < 2 ∧
  ∃ k, getitem (items nkp) (data m !!! c) = Ok k ∧ col = replicate n k.
Proof.
  intros Hshape Hn. unfold column, rbind. rewrite Hshape.
  destruct (Nat.ltb_spec c 2) as [Hc|]; [|discriminate].
  replace (n `min` 1) with 1 by lia. cbn [seq fmap list_fmap Nat.mul Nat.add].
  unfold fancy_index. cbn [rmapM].
  destruct (getitem (items nkp) (data m !!! c)) as [k|]; [|discriminate].
  unfold assign_column. cbn [rmapM cast_item length].
  intros Hcol. split; [exact Hc|]. exists k. split; [reflexivity|].
  destruct (Nat.eqb_spec 1 n) as [<-|_]; injection Hcol as <-; reflexivity.
Qed.

Lemma assembled_single_row (nkp1 nkp2 : hostarray F) (p : plan F) res :
  dtype_ nkp1 = dtype_kp → dtype_ nkp2 = dtype_kp →
  shape (buf_match p) = [1; 2] →
  assembled nkp1 nkp2 p = Ok res →
  ∃ cnt, data (buf_cnt p) !! 0 = Some cnt ∧ (0 ≤ cnt)%Z ∧
    length res = Z.to_nat cnt ∧
    ((0 < cnt)%Z →
     ∃ ka kb,
       getitem (items nkp1) (data (buf_match p) !!! 0) = Ok ka ∧
       getitem (items nkp2) (data (buf_match p) !!! 1) = Ok kb ∧
       res = replicate (Z.to_nat cnt) (ka, kb)).
Proof.
  intros Hd1 Hd2 Hshape Hasm.
  destruct (assembled_ok_inv _ _ _ _ Hd1 Hd2 Hasm) as (cnt & Hcnt & Hpos & Hlen & _).
  exists cnt. split; [exact Hcnt|]. split; [exact Hpos|]. split; [exact Hlen|].
  intros Hcnt1. revert Hasm. unfold assembled. rewrite Hcnt, Hd1, Hd2.
  cbn [rbind]. destruct (Z.ltb_spec cnt 0) as [|_]; [lia|]. cbn [rbind].
  destruct (column (buf_match p) (Z.to_nat cnt) 0) as [i0|] eqn:Hi0;
    cbn [rbind]; [|discriminate].
  destruct (fancy_index nkp1 i0) as [a|] eqn:Ha; cbn [rbind]; [|discriminate].
  destruct (assign_column dtype_kp (Z.to_nat cnt) a) as [c0|] eqn:Hc0;
    cbn [rbind]; [|discriminate].
  destruct (column (buf_match p) (Z.to_nat cnt) 1) as [i1|] eqn:Hi1;
    cbn [rbind]; [|discriminate].
  destruct (fancy_index nkp2 i1) as [b|] eqn:Hb; cbn [rbind]; [|discriminate].
  destruct (assign_column dtype_kp (Z.to_nat cnt) b) as [c1|] eqn:Hc1;
    cbn [rbind]; [|discriminate].
  intros [= <-].
  destruct (single_row_column nkp1 (buf_match p) (Z.to_nat cnt) 0 c0 Hshape
              ltac:(lia)) as (_ & ka & Hka & ->).
  { unfold rbind. rewrite Hi0, Ha. exact Hc0. }
  destruct (single_row_column nkp2 (buf_match p) (Z.to_nat cnt) 1 c1 Hshape
              ltac:(lia)) as (_ & kb & Hkb & ->).
  { unfold rbind. rewrite Hi1, Hb. exact Hc1. }
  exists ka, kb. split; [exact Hka|]. split; [exact Hkb|].
  unfold zip. apply zip_with_replicate.
Qed.

End SingleRow.

(** The rows that the download has: when a call [match(setA, setB)] on
    keypoint records returns with counter value [cnt], the result has [cnt]
    pairs, and for every [i < cnt] that has an i-th downloaded index pair
    [(m_i0, m_i1)], the i-th pair is exactly [(setA[m_i0], setB[m_i1])]: the
    whole record is the one of the caller-supplied array, whatever the
    device buffers hold. Unless the match buffer has a single row, all
    [cnt] index pairs exist. *)
Theorem match_indexes_original_inputs
    {F : Type} `{MatchPlan.Device F}
    (setA setB : MatchPlan.hostarray F) (p p' : MatchPlan.plan F)
    (res : list (keypoint F * keypoint F)) (t : list MatchPlan.event) :
  MatchPlan.dtype_ setA = MatchPlan.dtype_kp →
  MatchPlan.dtype_ setB = MatchPlan.dtype_kp →
  MatchPlan.match_ setA setB p = (Ok res, p', t) →
  ∃ cnt, MatchPlan.data (MatchPlan.buf_cnt p') !! 0 = Some cnt ∧
    (0 ≤ cnt)%Z ∧
    length res = Z.to_nat cnt ∧
    (∀ rows, MatchPlan.shape (MatchPlan.buf_match p') = [rows; 2] →
       rows ≠ 1 → Z.to_nat cnt ≤ rows) ∧
    ∀ i m0 m1, i < Z.to_nat cnt →
      MatchPlan.index_pair (MatchPlan.buf_match p') i = Some (m0, m1) →
      ∃ ka kb, MatchPlan.getitem (MatchPlan.items setA) m0 = Ok ka ∧
               MatchPlan.getitem (MatchPlan.items setB) m1 = Ok kb ∧
               res !! i = Some (ka, kb).
Proof.
  intros HdA HdB Hmatch.
  destruct (match_ok_inv _ _ _ _ _ _ Hmatch) as (_ & _ & Hasm).
  exact (assembled_ok_inv _ _ _ _ HdA HdB Hasm).
Qed.


Lemma match_indexes_original_inputs_witness :
  ∃ cnt,
    MatchPlan.data (MatchPlan.buf_cnt
      (Examples.call (8 # 10) 4
         (Examples.recarray_of [Examples.kp 0 [1; 2; 3]%Z])
         (Examples.recarray_of [Examples.kp 1 [1; 2; 3]%Z])).1.2) !! 0
    = Some cnt ∧ cnt = 1%Z.
Proof.
  destruct (@match_indexes_original_inputs Z (Examples.dev (8 # 10))
              (Examples.recarray_of [Examples.kp 0 [1; 2; 3]%Z])
              (Examples.recarray_of [Examples.kp 1 [1; 2; 3]%Z])
              (Examples.fresh_plan (8 # 10) 4)
              (Examples.call (8 # 10) 4
                 (Examples.recarray_of [Examples.kp 0 [1; 2; 3]%Z])
                 (Examples.recarray_of [Examples.kp 1 [1; 2; 3]%Z])).1.2
              [(Examples.kp 0 [1; 2; 3]%Z, Examples.kp 1 [1; 2; 3]%Z)]
              (Examples.call (8 # 10) 4
                 (Examples.recarray_of [Examples.kp 0 [1; 2; 3]%Z])
                 (Examples.recarray_of [Examples.kp 1 [1; 2; 3]%Z])).2
              eq_refl eq_refl)
    as (cnt & Hcnt & _ & Hlen & _).
  - vm_compute. reflexivity.
  - exists cnt. split; [exact Hcnt|].
    simpl in Hlen. lia.
Defined.

(** C1. The pairs of a result are records of the caller's arrays, but not
    always those of their own index pair. On a plan whose match buffer has
    a single row (a plan of size 1: line 187 compares the number of pairs
    with the number of integers of the buffer, and so keeps it for inputs
    of two records each), a call that returns with a counter [cnt > 1] has
    [cnt] pairs, while the download holds one index pair only: every pair
    of the result is the pair of records that row 0 designates, and for
    [0 < i] there is no i-th downloaded index pair that pair [i] could come
    from. *)
Theorem match_single_row_has_one_index_pair
    {F : Type} `{MatchPlan.Device F}
    (setA setB : MatchPlan.hostarray F) (p p' : MatchPlan.plan F)
    (res : list (keypoint F * keypoint F)) (t : list MatchPlan.event)
    (cnt : Z) :
  MatchPlan.dtype_ setA = MatchPlan.dtype_kp →
  MatchPlan.dtype_ setB = MatchPlan.dtype_kp →
  MatchPlan.match_ setA setB p = (Ok res, p', t) →
  MatchPlan.shape (MatchPlan.buf_match p') = [1; 2] →
  MatchPlan.data (MatchPlan.buf_cnt p') !! 0 = Some cnt →
  (1 < cnt)%Z →
  length res = Z.to_nat cnt ∧
  ∃ ka kb,
    MatchPlan.index_pair (MatchPlan.buf_match p') 0
      = Some (MatchPlan.data (MatchPlan.buf_match p') !!! 0,
              MatchPlan.data (MatchPlan.buf_match p') !!! 1) ∧
    MatchPlan.getitem (MatchPlan.items setA)
      (MatchPlan.data (MatchPlan.buf_match p') !!! 0) = Ok ka ∧
    MatchPlan.getitem (MatchPlan.items setB)
      (MatchPlan.data (MatchPlan.buf_match p') !!! 1) = Ok kb ∧
    ∀ i, i < Z.to_nat cnt →
      res !! i = Some (ka, kb) ∧
      (0 < i → MatchPlan.index_pair (MatchPlan.buf_match p') i = None).
Proof.
  intros HdA HdB Hmatch Hshape Hcnt Hmany.
  destruct (match_ok_inv _ _ _ _ _ _ Hmatch) as (_ & _ & Hasm).
  destruct (assembled_single_row _ _ _ _ HdA HdB Hshape Hasm)
    as (cnt' & Hcnt' & _ & Hlen & Hrow).
  rewrite Hcnt in Hcnt'. injection Hcnt' as <-.
  split; [exact Hlen|].
  destruct Hrow as (ka & kb & Hka & Hkb & ->); [lia|].
  exists ka, kb.
  split; [unfold MatchPlan.index_pair; rewrite Hshape; reflexivity|].
  split; [exact Hka|]. split; [exact Hkb|].
  intros i Hi. split; [apply lookup_replicate_2, Hi|].
  intros Hpos. unfold MatchPlan.index_pair. rewrite Hshape.
  destruct (Nat.ltb_spec i 1); [lia|reflexivity].
Qed.

Lemma match_single_row_has_one_index_pair_witness :
  (Examples.call (8 # 10) 1
     (Examples.recarray_of [Examples.kp 0 [1; 2; 3]; Examples.kp 1 [9; 9; 9]]%Z)
     (Examples.recarray_of [Examples.kp 3 [1; 2; 3]; Examples.kp 4 [9; 9; 9]]%Z)).1.1
  = Ok [ (Examples.kp 0 [1; 2; 3], Examples.kp 3 [1; 2; 3]);
         (Examples.kp 0 [1; 2; 3], Examples.kp 3 [1; 2; 3]) ]%Z ∧
  MatchPlan.index_pair
    (MatchPlan.buf_match
       (Examples.call (8 # 10) 1
          (Examples.recarray_of [Examples.kp 0 [1; 2; 3]; Examples.kp 1 [9; 9; 9]]%Z)
          (Examples.recarray_of [Examples.kp 3 [1; 2; 3]; Examples.kp 4 [9; 9; 9]]%Z)).1.2)
    1 = None.
Proof.
  destruct (@match_single_row_has_one_index_pair Z (Examples.dev (8 # 10))
              (Examples.recarray_of [Examples.kp 0 [1; 2; 3]; Examples.kp 1 [9; 9; 9]]%Z)
              (Examples.recarray_of [Examples.kp 3 [1; 2; 3]; Examples.kp 4 [9; 9; 9]]%Z)
              (Examples.fresh_plan (8 # 10) 1)
              (Examples.call (8 # 10) 1
                 (Examples.recarray_of [Examples.kp 0 [1; 2; 3]; Examples.kp 1 [9; 9; 9]]%Z)
                 (Examples.recarray_of [Examples.kp 3 [1; 2; 3]; Examples.kp 4 [9; 9; 9]]%Z)).1.2
              [ (Examples.kp 0 [1; 2; 3], Examples.kp 3 [1; 2; 3]);
                (Examples.kp 0 [1; 2; 3], Examples.kp 3 [1; 2; 3]) ]%Z
              (Examples.call (8 # 10) 1
                 (Examples.recarray_of [Examples.kp 0 [1; 2; 3]; Examples.kp 1 [9; 9; 9]]%Z)
                 (Examples.recarray_of [Examples.kp 3 [1; 2; 3]; Examples.kp 4 [9; 9; 9]]%Z)).2
              2%Z eq_refl eq_refl)
    as (_ & ka & kb & _ & _ & _ & Hpairs).
  - vm_compute. reflexivity.
  - vm_compute. reflexivity.
  - vm_compute. reflexivity.
  - lia.
  - split; [vm_compute; reflexivity|].
    apply (Hpairs 1); simpl; lia.
Defined.

(** The same two inputs, where both records of A have a match in B: a plan
    of size 1 returns the first pair twice, a plan of size 2 the two
    pairs. *)
Example match_pairs_on_small_plan :
  (Examples.call (8 # 10) 1
     (Examples.recarray_of [Examples.kp 0 [1; 2; 3]; Examples.kp 1 [9; 9; 9]]%Z)
     (Examples.recarray_of [Examples.kp 3 [1; 2; 3]; Examples.kp 4 [9; 9; 9]]%Z)).1.1
  = Ok [ (Examples.kp 0 [1; 2; 3], Examples.kp 3 [1; 2; 3]);
         (Examples.kp 0 [1; 2; 3], Examples.kp 3 [1; 2; 3]) ]%Z ∧
  (Examples.call (8 # 10) 2
     (Examples.recarray_of [Examples.kp 0 [1; 2; 3]; Examples.kp 1 [9; 9; 9]]%Z)
     (Examples.recarray_of [Examples.kp 3 [1; 2; 3]; Examples.kp 4 [9; 9; 9]]%Z)).1.1
  = Ok [ (Examples.kp 0 [1; 2; 3], Examples.kp 3 [1; 2; 3]);
         (Examples.kp 1 [9; 9; 9], Examples.kp 4 [9; 9; 9]) ]%Z.
Proof. split; vm_compute; reflexivity. Qed.

(** ** Shapes and capacities across a call *)

Section Capacities.
Import Utils MatchPlan.
Context {F : Type} `{Device F}.

Lemma buf_match_recorded evs (p : plan F) :
  buf_match (recorded evs p) = buf_match p.
Proof. unfold recorded. destruct (profile p); reflexivity. Qed.

Lemma buf_Kp_1_recorded evs (p : plan F) :
  buf_Kp_1 (recorded evs p) = buf_Kp_1 p.
Proof. unfold recorded. destruct (profile p); reflexivity. Qed.

Lemma buf_Kp_2_recorded evs (p : plan F) :
  buf_Kp_2 (recorded evs p) = buf_Kp_2 p.
Proof. unfold recorded. destruct (profile p); reflexivity. Qed.

Lemma buf_cnt_recorded evs (p : plan F) :
  buf_cnt (recorded evs p) = buf_cnt p.
Proof. unfold recorded. destruct (profile p); reflexivity. Qed.

Lemma shapes_matched (nkp1 nkp2 : hostarray F) (p : plan F) :
  shapes (matched nkp1 nkp2 p) = shapes (grown nkp1 nkp2 p).
Proof.
  unfold matched, shapes.
  rewrite buf_match_recorded, buf_Kp_1_recorded, buf_Kp_2_recorded.
  cbn [launched set_cnt set_match buf_match buf_Kp_1 buf_Kp_2 written shape].
  rewrite buf_match_recorded, buf_Kp_1_recorded, buf_Kp_2_recorded.
  reflexivity.
Qed.

(** Whatever the outcome, the locked part leaves the buffers with the
    shapes that lines 180-188 gave them. *)
Lemma shapes_locked_outcome (nkp1 nkp2 : hostarray F) (p : plan F) :
  shapes (locked_outcome nkp1 nkp2 p).2 = shapes (grown nkp1 nkp2 p).
Proof.
  unfold locked_outcome.
  destruct (length (items nkp1) <=? _).
  - destruct (length (items nkp2) <=? _); cbn [snd].
    + apply shapes_matched.
    + reflexivity.
  - reflexivity.
Qed.

Lemma match_shapes (nkp1 nkp2 : hostarray F) (p : plan F) :
  checks nkp1 nkp2 = true →
  shapes (match_ nkp1 nkp2 p).1.2 = shapes (grown nkp1 nkp2 p).
Proof.
  intros Hchecks. rewrite match_run, Hchecks. unfold with_sem.
  destruct (match_locked_run nkp1 nkp2 p) as (t & ->).
  destruct (locked_outcome nkp1 nkp2 p) as [r p1] eqn:Hout.
  cbn [fst snd].
  change p1 with (r, p1).2. rewrite <- Hout.
  apply shapes_locked_outcome.
Qed.

Lemma size_empty_kp n : size (@empty_kp F _ [n]) = n.
Proof. unfold size. simpl. lia. Qed.

(** Each keypoint buffer ends up with the larger of its old capacity and
    the length of the input, and keeps its capacity otherwise. *)
Lemma grown_Kp_1_capacity (nkp1 nkp2 : hostarray F) (p : plan F) :
  size (buf_Kp_1 (grown nkp1 nkp2 p)) = size (buf_Kp_1 p) `max` size_of nkp1.
Proof.
  unfold grown.
  destruct (Nat.ltb_spec (size (buf_Kp_1 p)) (size_of nkp1)) as [Hlt|Hge].
  - replace (size (buf_Kp_1 _)) with (size_of nkp1); [lia|].
    destruct (_ <? size_of nkp2); destruct (_ <? _ `min` _);
      cbn [buf_Kp_1 set_Kp_1 set_Kp_2 set_match];
      symmetry; apply size_empty_kp.
  - replace (size (buf_Kp_1 _)) with (size (buf_Kp_1 p)); [lia|].
    destruct (_ <? size_of nkp2); destruct (_ <? _ `min` _); reflexivity.
Qed.

Lemma grown_Kp_2_capacity (nkp1 nkp2 : hostarray F) (p : plan F) :
  size (buf_Kp_2 (grown nkp1 nkp2 p)) = size (buf_Kp_2 p) `max` size_of nkp2.
Proof.
  unfold grown.
  set (p1 := if size (buf_Kp_1 p) <? size_of nkp1 then _ else p).
  assert (Hp1 : buf_Kp_2 p1 = buf_Kp_2 p).
  { subst p1. destruct (_ <? _); reflexivity. }
  rewrite Hp1.
  destruct (Nat.ltb_spec (size (buf_Kp_2 p)) (size_of nkp2)) as [Hlt|Hge].
  - replace (size (buf_Kp_2 _)) with (size_of nkp2); [lia|].
    destruct (_ <? _ `min` _);
      cbn [buf_Kp_2 set_Kp_1 set_Kp_2 set_match];
      symmetry; apply size_empty_kp.
  - replace (size (buf_Kp_2 _)) with (size (buf_Kp_2 p)); [lia|].
    destruct (_ <? _ `min` _); cbn [buf_Kp_2 set_match]; congruence.
Qed.

(** The match buffer is reallocated, with one axis, exactly when the
    number of its entries is below [min(n2, n1)]. *)
Lemma grown_match_shape (nkp1 nkp2 : hostarray F) (p : plan F) :
  shape (buf_match (grown nkp1 nkp2 p)) =
  if size (buf_match p) <? size_of nkp2 `min` size_of nkp1
  then [size_of nkp2 `min` size_of nkp1]
  else shape (buf_match p).
Proof.
  unfold grown.
  set (p1 := if size (buf_Kp_1 p) <? size_of nkp1 then _ else p).
  set (p2 := if size (buf_Kp_2 p1) <? size_of nkp2 then _ else p1).
  assert (Hp2 : buf_match p2 = buf_match p).
  { subst p2 p1. destruct (_ <? size_of nkp2); destruct (_ <? size_of nkp1);
      reflexivity. }
  rewrite Hp2. destruct (_ <? _ `min` _); [reflexivity|].
  rewrite Hp2. reflexivity.
Qed.

Lemma assembled_rank1 (nkp1 nkp2 : hostarray F) (p : plan F) k :
  shape (buf_match p) = [k] → ∃ e, assembled nkp1 nkp2 p = Raise e.
Proof.
  intros Hshape. unfold assembled, rbind.
  destruct (data (buf_cnt p) !! 0) as [sz|]; [|eauto].
  destruct (sz <? 0)%Z; [eauto|].
  rewrite (column_rank1 _ k) by exact Hshape. eauto.
Qed.

(** After a reallocation of the match buffer the call cannot return. *)
Lemma match_raises_after_reallocation (nkp1 nkp2 : hostarray F) (p : plan F) :
  checks nkp1 nkp2 = true →
  size (buf_match p) < size_of nkp2 `min` size_of nkp1 →
  ∃ e p' t, match_ nkp1 nkp2 p = (Raise e, p', t).
Proof.
  intros Hchecks Hsmall. rewrite match_run, Hchecks. unfold with_sem.
  destruct (match_locked_run nkp1 nkp2 p) as (t & ->).
  assert (Hshape : shape (buf_match (matched nkp1 nkp2 p))
                   = [size_of nkp2 `min` size_of nkp1]).
  { pose proof (shapes_matched nkp1 nkp2 p) as Hs. unfold shapes in Hs.
    injection Hs as _ _ ->. rewrite grown_match_shape.
    destruct (Nat.ltb_spec (size (buf_match p)) (size_of nkp2 `min` size_of nkp1));
      [reflexivity|lia]. }
  destruct (assembled_rank1 nkp1 nkp2 _ _ Hshape) as [e He].
  unfold locked_outcome.
  destruct (length (items nkp1) <=? _); [|eauto].
  destruct (length (items nkp2) <=? _); [|eauto].
  rewrite He. eauto.
Qed.

Lemma match_rejected (nkp1 nkp2 : hostarray F) (p : plan F) :
  checks nkp1 nkp2 = false →
  match_ nkp1 nkp2 p = (Raise AssertionError, p, []).
Proof. intros Hchecks. rewrite match_run, Hchecks. reflexivity. Qed.

Lemma match_takes_lock (nkp1 nkp2 : hostarray F) (p : plan F) :
  checks nkp1 nkp2 = true →
  ∃ r p' t, match_ nkp1 nkp2 p = (r, p', Acquire :: t ++ [Release]).
Proof.
  intros Hchecks. rewrite match_run, Hchecks. unfold with_sem.
  destruct (match_locked_run nkp1 nkp2 p) as (t & ->).
  destruct (locked_outcome nkp1 nkp2 p) as [r p1]. eauto.
Qed.

End Capacities.

(** ** A plan across a sequence of calls *)

Section Calls.
Import Utils MatchPlan.
Context {F : Type} `{Device F}.

Lemma match_state_cases (nkp1 nkp2 : hostarray F) (p : plan F) :
  (checks nkp1 nkp2 = false ∧ (match_ nkp1 nkp2 p).1.2 = p) ∨
  (checks nkp1 nkp2 = true ∧
   shapes (match_ nkp1 nkp2 p).1.2 = shapes (grown nkp1 nkp2 p)).
Proof.
  destruct (checks nkp1 nkp2) eqn:Hchecks.
  - right. split; [reflexivity|]. apply match_shapes, Hchecks.
  - left. split; [reflexivity|]. rewrite match_rejected by exact Hchecks.
    reflexivity.
Qed.

Lemma size_shape {A} (b1 b2 : array A) :
  shape b1 = shape b2 → size b1 = size b2.
Proof. unfold size. intros ->. reflexivity. Qed.

Lemma match_Kp_1_capacity (nkp1 nkp2 : hostarray F) (p : plan F) :
  size (buf_Kp_1 p) ≤ size (buf_Kp_1 (match_ nkp1 nkp2 p).1.2) ∧
  (checks nkp1 nkp2 = true →
   size_of nkp1 ≤ size (buf_Kp_1 (match_ nkp1 nkp2 p).1.2)).
Proof.
  destruct (match_state_cases nkp1 nkp2 p) as [[Hc ->]|[Hc Hs]].
  - split; [lia|]. congruence.
  - unfold shapes in Hs. injection Hs as Hs1 _ _.
    rewrite (size_shape _ _ Hs1), grown_Kp_1_capacity. lia.
Qed.

Lemma match_Kp_2_capacity (nkp1 nkp2 : hostarray F) (p : plan F) :
  size (buf_Kp_2 p) ≤ size (buf_Kp_2 (match_ nkp1 nkp2 p).1.2) ∧
  (checks nkp1 nkp2 = true →
   size_of nkp2 ≤ size (buf_Kp_2 (match_ nkp1 nkp2 p).1.2)).
Proof.
  destruct (match_state_cases nkp1 nkp2 p) as [[Hc ->]|[Hc Hs]].
  - split; [lia|]. congruence.
  - unfold shapes in Hs. injection Hs as _ Hs2 _.
    rewrite (size_shape _ _ Hs2), grown_Kp_2_capacity. lia.
Qed.

Lemma match_match_entries (nkp1 nkp2 : hostarray F) (p : plan F) :
  size (buf_match p) ≤ size (buf_match (match_ nkp1 nkp2 p).1.2).
Proof.
  destruct (match_state_cases nkp1 nkp2 p) as [[Hc ->]|[Hc Hs]]; [lia|].
  unfold shapes in Hs. injection Hs as _ _ Hs3.
  rewrite (size_shape _ _ Hs3). unfold size at 2.
  rewrite grown_match_shape.
  destruct (Nat.ltb_spec (size (buf_match p)) (size_of nkp2 `min` size_of nkp1));
    [simpl; lia|reflexivity].
Qed.

Lemma match_match_shape (nkp1 nkp2 : hostarray F) (p : plan F) :
  checks nkp1 nkp2 = true →
  shape (buf_match (match_ nkp1 nkp2 p).1.2) =
  if size (buf_match p) <? size_of nkp2 `min` size_of nkp1
  then [size_of nkp2 `min` size_of nkp1]
  else shape (buf_match p).
Proof.
  intros Hchecks. pose proof (match_shapes nkp1 nkp2 p Hchecks) as Hs.
  unfold shapes in Hs. injection Hs as _ _ ->. apply grown_match_shape.
Qed.

(** No keypoint buffer and no match buffer ever loses entries, and each
    keypoint buffer holds the longest input that passed the assertions. *)
Lemma after_calls_capacities cs (p : plan F) :
  size (buf_Kp_1 p) ≤ size (buf_Kp_1 (after_calls cs p)) ∧
  size (buf_Kp_2 p) ≤ size (buf_Kp_2 (after_calls cs p)) ∧
  size (buf_match p) ≤ size (buf_match (after_calls cs p)) ∧
  Forall (λ c, checks c.1 c.2 = true →
               size_of c.1 ≤ size (buf_Kp_1 (after_calls cs p)) ∧
               size_of c.2 ≤ size (buf_Kp_2 (after_calls cs p))) cs.
Proof.
  revert p. induction cs as [|c cs IH]; intros p; simpl.
  - repeat split; auto.
  - destruct (IH (match_ c.1 c.2 p).1.2) as (H1 & H2 & H3 & Hall).
    destruct (match_Kp_1_capacity c.1 c.2 p) as [Hk1 Hin1].
    destruct (match_Kp_2_capacity c.1 c.2 p) as [Hk2 Hin2].
    pose proof (match_match_entries c.1 c.2 p) as Hm.
    repeat split; try lia.
    constructor; [|exact Hall].
    intros Hc. specialize (Hin1 Hc). specialize (Hin2 Hc). lia.
Qed.

End Calls.

(** C3. The capacity of the match-output buffer after a call, in match
    pairs, can stay below [min(|A|, |B|)] of that call: on a plan of size 1
    a call with two keypoints on each side leaves the buffer at one pair
    (its two entries are not fewer than the minimum 2), and a call with
    three on each side replaces it by a buffer of three entries, one pair. *)
Theorem match_buffer_capacity_below_min
    {F : Type} `{MatchPlan.Device F}
    (a1 a2 a3 b1 b2 b3 : keypoint F) (cpu profile : bool) :
  let p := MatchPlan.__init__ 1 cpu profile in
  let A2 := MatchPlan.HostArray 1 MatchPlan.numpy_recarray MatchPlan.dtype_kp [a1; a2] in
  let B2 := MatchPlan.HostArray 1 MatchPlan.numpy_recarray MatchPlan.dtype_kp [b1; b2] in
  let A3 := MatchPlan.HostArray 1 MatchPlan.numpy_recarray MatchPlan.dtype_kp [a1; a2; a3] in
  let B3 := MatchPlan.HostArray 1 MatchPlan.numpy_recarray MatchPlan.dtype_kp [b1; b2; b3] in
  MatchPlan.shape (MatchPlan.buf_match (MatchPlan.match_ A2 B2 p).1.2) = [1; 2] ∧
  pair_capacity (MatchPlan.buf_match (MatchPlan.match_ A2 B2 p).1.2) = 1 ∧
  MatchPlan.size_of B2 `min` MatchPlan.size_of A2 = 2 ∧
  MatchPlan.shape (MatchPlan.buf_match (MatchPlan.match_ A3 B3 p).1.2) = [3] ∧
  pair_capacity (MatchPlan.buf_match (MatchPlan.match_ A3 B3 p).1.2) = 1 ∧
  MatchPlan.size_of B3 `min` MatchPlan.size_of A3 = 3.
Proof.
  intros p A2 B2 A3 B3.
  pose proof (match_match_shape A2 B2 p eq_refl) as Hs2.
  pose proof (match_match_shape A3 B3 p eq_refl) as Hs3.
  change (MatchPlan.shape (MatchPlan.buf_match (MatchPlan.match_ A2 B2 p).1.2) = [1; 2]) in Hs2.
  change (MatchPlan.shape (MatchPlan.buf_match (MatchPlan.match_ A3 B3 p).1.2) = [3]) in Hs3.
  unfold pair_capacity, MatchPlan.size. rewrite Hs2, Hs3.
  repeat split; reflexivity.
Qed.

(** C4. Growth of the match-output buffer is not transparent: on a plan of
    size 1, a call with three keypoints on each side reallocates the buffer
    with a single axis and then raises instead of returning a result,
    whatever the device computes. *)
Theorem match_raises_when_match_buffer_grows
    {F : Type} `{MatchPlan.Device F}
    (a1 a2 a3 b1 b2 b3 : keypoint F) (cpu profile : bool) :
  ∃ e p' t,
    MatchPlan.match_
      (MatchPlan.HostArray 1 MatchPlan.numpy_recarray MatchPlan.dtype_kp [a1; a2; a3])
      (MatchPlan.HostArray 1 MatchPlan.numpy_recarray MatchPlan.dtype_kp [b1; b2; b3])
      (MatchPlan.__init__ 1 cpu profile)
    = (Raise e, p', t).
Proof.
  apply match_raises_after_reallocation; [reflexivity|].
  cbn. lia.
Qed.

(** With the kernels of the specification the exception is [IndexError],
    while a plan of size 3 returns the three matches. On a plan of size 2
    the match buffer is not reallocated (it has 4 entries, not fewer than
    3) and keeps two rows: the three matches do not fit the result. *)
Example growth_is_not_transparent :
  let A := Examples.recarray_of
             [Examples.kp 0 [1; 2; 3]; Examples.kp 1 [9; 9; 9]; Examples.kp 2 [5; 0; 5]]%Z in
  let B := Examples.recarray_of
             [Examples.kp 3 [1; 2; 3]; Examples.kp 4 [9; 9; 9]; Examples.kp 5 [5; 0; 5]]%Z in
  (Examples.call (8 # 10) 1 A B).1.1 = Raise IndexError ∧
  (Examples.call (8 # 10) 2 A B).1.1 = Raise ValueError ∧
  (Examples.call (8 # 10) 3 A B).1.1 =
    Ok [ (Examples.kp 0 [1; 2; 3], Examples.kp 3 [1; 2; 3]);
         (Examples.kp 1 [9; 9; 9], Examples.kp 4 [9; 9; 9]);
         (Examples.kp 2 [5; 0; 5], Examples.kp 5 [5; 0; 5]) ]%Z.
Proof. repeat split; vm_compute; reflexivity. Qed.

(** C8. If either argument of [match] has a rank other than 1 or is not of
    type [recarray], the call raises [AssertionError] before the semaphore
    is taken and before any buffer is grown, reset or written: the plan is
    unchanged and nothing has happened. The dtype of the elements is not
    looked at. *)
Theorem match_asserts_rank_and_type
    {F : Type} `{MatchPlan.Device F}
    (nkp1 nkp2 : MatchPlan.hostarray F) (p : MatchPlan.plan F) :
  MatchPlan.ndim nkp1 ≠ 1 ∨ MatchPlan.ndim nkp2 ≠ 1 ∨
  MatchPlan.type_ nkp1 ≠ MatchPlan.numpy_recarray ∨
  MatchPlan.type_ nkp2 ≠ MatchPlan.numpy_recarray →
  MatchPlan.match_ nkp1 nkp2 p = (Raise AssertionError, p, []).
Proof.
  intros Hbad. apply match_rejected. unfold checks, MatchPlan.is_recarray.
  destruct (Nat.eqb_spec (MatchPlan.ndim nkp1) 1); [|reflexivity].
  destruct (Nat.eqb_spec (MatchPlan.ndim nkp2) 1);
    [|reflexivity].
  destruct (MatchPlan.type_ nkp1); [|reflexivity].
  destruct (MatchPlan.type_ nkp2); [|reflexivity].
  exfalso. destruct Hbad as [?|[?|[?|?]]]; congruence.
Qed.

Lemma match_asserts_rank_and_type_witness :
  @MatchPlan.match_ Z (Examples.dev (8 # 10))
    (MatchPlan.HostArray 2 MatchPlan.numpy_recarray MatchPlan.dtype_kp
       [Examples.kp 0 [1; 2; 3]%Z])
    (Examples.recarray_of [Examples.kp 1 [1; 2; 3]%Z])
    (Examples.fresh_plan (8 # 10) 4)
  = (Raise AssertionError, Examples.fresh_plan (8 # 10) 4, []).
Proof.
  apply (@match_asserts_rank_and_type Z (Examples.dev (8 # 10))).
  left. simpl. lia.
Defined.

(** A rank-1 [recarray] whose elements are not Descriptor Records passes
    the four assertions: the call takes the semaphore, resets the buffers
    and goes on to the kernel. *)
Lemma match_admits_foreign_dtype :
  let A := Examples.foreign_recarray_of [Examples.kp 0 [1; 2; 3]%Z] in
  let B := Examples.recarray_of [Examples.kp 1 [1; 2; 3]%Z] in
  MatchPlan.dtype_ A ≠ MatchPlan.dtype_kp ∧
  (Examples.call (8 # 10) 4 A B).1.1 ≠ Raise AssertionError ∧
  (Examples.call (8 # 10) 4 A B).2 =
    [ MatchPlan.Acquire;
      MatchPlan.Launch MatchPlan.memset "memset_kp" [128%Z] [128%Z];
      MatchPlan.Launch MatchPlan.memset "memset_kp" [128%Z] [128%Z];
      MatchPlan.Launch MatchPlan.memset "memset_int" [128%Z] [128%Z];
      MatchPlan.Launch MatchPlan.memset "memset_int" [1%Z] [1%Z];
      MatchPlan.CopyH2D "Kp_1"; MatchPlan.CopyH2D "Kp_2";
      MatchPlan.Launch MatchPlan.matching_gpu "matching" [64%Z] [64%Z];
      MatchPlan.Get "cnt"; MatchPlan.Get "match";
      MatchPlan.Release ].
Proof.
  intros A B. split; [discriminate|]. split.
  - vm_compute. discriminate.
  - vm_compute. reflexivity.
Qed.

(** ** The reset, with the memset kernels of the specification *)

Section Reset.
Import Utils MatchPlan KernelSpec.
Context {F : Type} `{D : Device F}.

Lemma length_apply_writes {A} (ws : writes A) (mem : list A) :
  length (apply_writes ws mem) = length mem.
Proof.
  unfold apply_writes. revert mem.
  induction ws as [|w ws IH]; intros mem; simpl; [reflexivity|].
  rewrite IH. apply length_insert.
Qed.

Lemma filter_below n g :
  n ≤ g →
  filter (λ gid, (Z.of_nat gid < Z.of_nat n)%Z) (seq 0 g) = seq 0 n.
Proof.
  intros Hle. replace g with (n + (g - n)) by lia.
  rewrite seq_app, filter_app. simpl.
  assert (Hall : ∀ s k, s + k ≤ n →
            filter (λ gid, (Z.of_nat gid < Z.of_nat n)%Z) (seq s k) = seq s k).
  { intros s k. revert s. induction k as [|k IH]; intros s Hs; [reflexivity|].
    simpl. rewrite filter_cons_True by lia. rewrite IH by lia. reflexivity. }
  assert (Hnone : ∀ s k, n ≤ s →
            filter (λ gid, (Z.of_nat gid < Z.of_nat n)%Z) (seq s k) = []).
  { intros s k. revert s. induction k as [|k IH]; intros s Hs; [reflexivity|].
    simpl. rewrite filter_cons_False by lia. apply IH. lia. }
  rewrite Hall by lia. rewrite Hnone by lia. apply app_nil_r.
Qed.

(** Writing [v] at the indices [0 .. k-1]. *)
Lemma apply_writes_prefix {A} (v : A) k (mem : list A) :
  k ≤ length mem →
  apply_writes ((λ gid, (gid, v)) <$> seq 0 k) mem = replicate k v ++ drop k mem.
Proof.
  unfold apply_writes. induction k as [|k IH]; intros Hk; [reflexivity|].
  rewrite seq_S, fmap_app, foldl_app, IH by lia. simpl.
  rewrite insert_app_r_alt by (rewrite length_replicate; lia).
  rewrite length_replicate, Nat.sub_diag.
  destruct (lookup_lt_is_Some_2 mem k ltac:(lia)) as [a Ha].
  rewrite (drop_S _ _ _ Ha).
  change (replicate k v ++ v :: drop (S k) mem
          = (v :: replicate k v) ++ drop (S k) mem).
  rewrite replicate_cons_app, <- app_assoc. reflexivity.
Qed.

Lemma apply_writes_all {A} (v : A) (mem : list A) :
  apply_writes ((λ gid, (gid, v)) <$> seq 0 (length mem)) mem
  = replicate (length mem) v.
Proof.
  rewrite apply_writes_prefix by lia. rewrite drop_all. apply app_nil_r.
Qed.

Lemma work_items_memset n :
  ∃ g, work_items (calc_size [Z.of_nat n] (BlockSeq [kernels memset])) = seq 0 g ∧
       n ≤ g.
Proof.
  destruct (calc_size_launch memset (Z.of_nat n)) as (g & -> & Hle & _).
  exists (Z.to_nat g). split; [reflexivity|lia].
Qed.

Lemma memset_kp_spec_all (mem : list (keypoint F)) v b :
  apply_writes
    (memset_kp_spec (calc_size [Z.of_nat (length mem)] (BlockSeq [kernels memset]))
                    mem v b (Z.of_nat (length mem))) mem
  = replicate (length mem) (sentinel_kp v b).
Proof.
  unfold memset_kp_spec.
  destruct (work_items_memset (length mem)) as (g & -> & Hle).
  rewrite (filter_below _ _ Hle). apply (apply_writes_all (sentinel_kp v b)).
Qed.

Lemma memset_int_spec_all (mem : list Z) v :
  apply_writes
    (memset_int_spec (calc_size [Z.of_nat (length mem)] (BlockSeq [kernels memset]))
                     mem v (Z.of_nat (length mem))) mem
  = replicate (length mem) v.
Proof.
  unfold memset_int_spec.
  destruct (work_items_memset (length mem)) as (g & -> & Hle).
  rewrite (filter_below _ _ Hle). apply apply_writes_all.
Qed.

Lemma memset_int_spec_one (mem : list Z) v :
  length mem = 1 →
  apply_writes (memset_int_spec [1%Z] mem v 1) mem = [v].
Proof.
  intros Hlen. destruct mem as [|c [|? ?]]; try discriminate. reflexivity.
Qed.

Lemma allocated_empty_kp shp :
  length (data (@empty_kp F D shp)) = size (@empty_kp F D shp).
Proof. unfold empty_kp, size. simpl. rewrite length_fmap, length_seq. reflexivity. Qed.

Lemma allocated_empty_int shp :
  length (data (@empty_int F D shp)) = size (@empty_int F D shp).
Proof. unfold empty_int, size. simpl. rewrite length_fmap, length_seq. reflexivity. Qed.

Lemma allocated_init n cpu prof : allocated (__init__ n cpu prof).
Proof.
  unfold allocated, __init__, _allocate_buffers.
  cbn [buf_Kp_1 buf_Kp_2 buf_match buf_cnt set_cnt set_match set_Kp_2 set_Kp_1 kpsize].
  repeat split; try apply allocated_empty_kp; try apply allocated_empty_int.
Qed.

Lemma allocated_grown (nkp1 nkp2 : hostarray F) (p : plan F) :
  allocated p → allocated (grown nkp1 nkp2 p).
Proof.
  intros (H1 & H2 & H3 & H4). unfold grown, allocated.
  destruct (_ <? size_of nkp1); cbn [buf_Kp_2 set_Kp_1];
    destruct (_ <? size_of nkp2); cbn [buf_match set_Kp_1 set_Kp_2];
    destruct (_ <? _ `min` _);
    cbn [buf_Kp_1 buf_Kp_2 buf_match buf_cnt set_Kp_1 set_Kp_2 set_match];
    repeat split;
    first [ assumption | apply allocated_empty_kp | apply allocated_empty_int ].
Qed.

Lemma size_written {A} (ws : writes A) (b : array A) :
  size (written ws b) = size b.
Proof. reflexivity. Qed.

Lemma data_written {A} (ws : writes A) (b : array A) :
  data (written ws b) = apply_writes ws (data b).
Proof. reflexivity. Qed.

Lemma reset_all_sentinel (p : plan F) :
  follows_spec D → allocated p → all_sentinel (reset p).
Proof.
  intros (Hkp & Hint & _) (H1 & H2 & H3 & H4).
  unfold all_sentinel, reset, memset_global.
  cbn [buf_Kp_1 buf_Kp_2 buf_match buf_cnt].
  rewrite !size_written, !data_written, Hkp, Hint.
  rewrite <- H1, <- H2, <- H3.
  rewrite !memset_kp_spec_all, memset_int_spec_all.
  rewrite (memset_int_spec_one _ _ H4).
  auto.
Qed.

End Reset.

Section ResetInMatch.
Import Utils MatchPlan KernelSpec.
Context {F : Type} `{D : Device F}.
Local Open Scope plan_scope.

Lemma allocated_reset (p : plan F) : allocated (p : plan F) → allocated (reset p).
Proof.
  intros (H1 & H2 & H3 & H4). unfold allocated, reset.
  cbn [buf_Kp_1 buf_Kp_2 buf_match buf_cnt].
  rewrite !size_written, !data_written, !length_apply_writes. auto.
Qed.

Lemma length_copy_into (src : list (keypoint F)) b :
  length src ≤ length (data b) →
  length (data (copy_into src b)) = length (data b).
Proof.
  intros Hfit. unfold copy_into. cbn [data].
  rewrite length_app, length_drop. lia.
Qed.

Lemma allocated_recorded evs (p : plan F) :
  allocated p → allocated (recorded evs p).
Proof. unfold recorded. destruct (profile p); auto. Qed.

Lemma allocated_launched (nkp1 nkp2 : hostarray F) (p : plan F) :
  allocated p → allocated (launched nkp1 nkp2 p).
Proof.
  intros (H1 & H2 & H3 & H4). unfold allocated, launched.
  cbn [buf_Kp_1 buf_Kp_2 buf_match buf_cnt set_cnt set_match].
  rewrite !size_written, !data_written, !length_apply_writes. auto.
Qed.

Lemma allocated_locked_outcome (nkp1 nkp2 : hostarray F) (p : plan F) :
  allocated p → allocated (locked_outcome nkp1 nkp2 p).2.
Proof.
  intros Halloc.
  pose proof (allocated_reset _ (allocated_grown nkp1 nkp2 p Halloc)) as Hp2.
  unfold locked_outcome.
  set (p2 := reset (grown nkp1 nkp2 p)) in *.
  destruct (Nat.leb_spec (length (items nkp1)) (length (data (buf_Kp_1 p2))))
    as [Hfit1|_]; [|exact Hp2].
  assert (Hu1 : allocated (uploaded_1 nkp1 p2)).
  { destruct Hp2 as (H1 & H2 & H3 & H4). unfold allocated, uploaded_1.
    cbn [buf_Kp_1 buf_Kp_2 buf_match buf_cnt set_Kp_1].
    rewrite length_copy_into by exact Hfit1. auto. }
  destruct (Nat.leb_spec (length (items nkp2)) (length (data (buf_Kp_2 p2))))
    as [Hfit2|_]; [|exact Hu1].
  cbn [snd]. unfold matched. fold p2.
  apply allocated_recorded, allocated_launched, allocated_recorded.
  destruct Hu1 as (H1 & H2 & H3 & H4). unfold allocated, uploaded_2.
  cbn [buf_Kp_1 buf_Kp_2 buf_match buf_cnt set_Kp_2].
  rewrite length_copy_into by exact Hfit2. auto.
Qed.

Lemma allocated_match (nkp1 nkp2 : hostarray F) (p : plan F) :
  allocated p → allocated (match_ nkp1 nkp2 p).1.2.
Proof.
  intros Halloc. rewrite match_run.
  destruct (checks nkp1 nkp2); [|exact Halloc].
  unfold with_sem. destruct (match_locked_run nkp1 nkp2 p) as (t & ->).
  pose proof (allocated_locked_outcome nkp1 nkp2 p Halloc) as Hout.
  destruct (locked_outcome nkp1 nkp2 p) as [r p1]. exact Hout.
Qed.

(** Every plan reached from the constructor by calls of [match] has its
    buffers allocated. *)
Lemma allocated_after_calls cs n cpu prof :
  allocated (after_calls cs (__init__ n cpu prof)).
Proof.
  generalize (allocated_init n cpu prof).
  generalize (__init__ n cpu prof).
  induction cs as [|c cs IH]; intros p Hp; simpl; [exact Hp|].
  apply IH, allocated_match, Hp.
Qed.

Lemma reset_then_rest (nkp1 nkp2 : hostarray F) (p : plan F) :
  checks nkp1 nkp2 = true →
  ∃ t1 r p' t2,
    (grow_buffers nkp1 nkp2 ;; _reset_buffer) p
      = (Ok tt, reset (grown nkp1 nkp2 p), t1) ∧
    Forall setup_event t1 ∧
    after_reset nkp1 nkp2 (reset (grown nkp1 nkp2 p)) = (r, p', t2) ∧
    match_ nkp1 nkp2 p = (r, p', Acquire :: (t1 ++ t2) ++ [Release]).
Proof.
  intros Hchecks.
  destruct (grow_buffers_run nkp1 nkp2 p) as (ta & Hgrow & Hta).
  destruct (_reset_buffer_run (grown nkp1 nkp2 p)) as (tb & Hreset & Htb).
  destruct (after_reset nkp1 nkp2 (reset (grown nkp1 nkp2 p)))
    as [[r p'] t2] eqn:Hrest.
  exists (ta ++ tb), r, p', t2. split; [|split; [|split]].
  - eapply bind_run; [exact Hgrow|exact Hreset].
  - apply Forall_app. split.
    + eapply Forall_impl; [exact Hta|].
      intros ev (s & n & [->| ->]); exact I.
    + eapply Forall_impl; [exact Htb|].
      intros ev (e & g & l & ->). exact I.
  - reflexivity.
  - rewrite match_run, Hchecks. unfold with_sem, match_locked.
    rewrite (bind_run _ _ _ _ _ _ Hgrow r p' (tb ++ t2)).
    + rewrite app_assoc. reflexivity.
    + eapply bind_run; [exact Hreset|exact Hrest].
Qed.

End ResetInMatch.

(** C9. In every call of [match] that passes the assertions, on a plan
    reached from the constructor by any calls, the working buffers are reset
    before the inputs are uploaded and the matching kernel is launched: when
    the growth tests and [_reset_buffer] are done, both keypoint buffers hold
    -1 in every numeric field and 0 in every descriptor byte, every entry of
    the match-output buffer is -1 and the counter is 0; until then only log
    records, allocations and memset launches have happened, and the rest of
    the call runs from that plan. *)
Theorem reset_before_upload
    {F : Type} `{D : MatchPlan.Device F}
    (cs : list (MatchPlan.hostarray F * MatchPlan.hostarray F))
    (size : nat) (cpu profile : bool)
    (nkp1 nkp2 : MatchPlan.hostarray F) :
  KernelSpec.follows_spec D →
  checks nkp1 nkp2 = true →
  let p := after_calls cs (MatchPlan.__init__ size cpu profile) in
  ∃ p1 t1 r p' t2,
    MatchPlan.bind (MatchPlan.grow_buffers nkp1 nkp2)
                   (λ _, MatchPlan._reset_buffer) p = (Ok tt, p1, t1) ∧
    all_sentinel p1 ∧
    Forall setup_event t1 ∧
    MatchPlan.after_reset nkp1 nkp2 p1 = (r, p', t2) ∧
    MatchPlan.match_ nkp1 nkp2 p
      = (r, p', MatchPlan.Acquire :: (t1 ++ t2) ++ [MatchPlan.Release]).
Proof.
  intros Hspec Hchecks p.
  destruct (reset_then_rest nkp1 nkp2 p Hchecks)
    as (t1 & r & p' & t2 & Hsetup & Hevents & Hrest & Hmatch).
  exists (reset (grown nkp1 nkp2 p)), t1, r, p', t2.
  split; [exact Hsetup|]. split; [|auto].
  apply reset_all_sentinel; [exact Hspec|].
  apply allocated_grown, allocated_after_calls.
Qed.

Lemma reset_before_upload_witness :
  ∃ p1 t1,
    @MatchPlan.bind Z unit unit
      (@MatchPlan.grow_buffers Z (Examples.dev (8 # 10))
         (Examples.recarray_of [Examples.kp 0 [1; 2; 3]%Z])
         (Examples.recarray_of [Examples.kp 1 [1; 2; 3]%Z]))
      (λ _, @MatchPlan._reset_buffer Z (Examples.dev (8 # 10)))
      (Examples.fresh_plan (8 # 10) 2) = (Ok tt, p1, t1) ∧
    MatchPlan.data (MatchPlan.buf_match p1) = [-1; -1; -1; -1]%Z ∧
    MatchPlan.data (MatchPlan.buf_cnt p1) = [0%Z].
Proof.
  destruct (@reset_before_upload Z (Examples.dev (8 # 10)) [] 2 false false
              (Examples.recarray_of [Examples.kp 0 [1; 2; 3]%Z])
              (Examples.recarray_of [Examples.kp 1 [1; 2; 3]%Z]))
    as (p1 & t1 & r & p' & t2 & Hsetup & Hsent & _).
  - repeat split.
  - reflexivity.
  - exists p1, t1. split; [exact Hsetup|].
    destruct Hsent as (_ & _ & Hmatch & Hcnt). split; [|exact Hcnt].
    rewrite Hmatch.
    assert (Hsize : MatchPlan.size (MatchPlan.buf_match p1) = 4).
    { vm_compute in Hsetup. injection Hsetup as <- _. reflexivity. }
    rewrite Hsize. reflexivity.
Defined.

(** ** The matching kernel of the specification *)

Section Matching.
Import Utils MatchPlan KernelSpec.
Context {F : Type}.

Lemma length_omap_seq {A} (f : nat → option A) n s k :
  (∀ gid a, f gid = Some a → gid < n) →
  length (omap f (seq s k)) ≤ n - s.
Proof.
  intros Hf. revert s. induction k as [|k IH]; intros s; [simpl; lia|].
  specialize (IH (S s)).
  change (omap f (seq s (S k)))
    with (match f s with
          | Some a => a :: omap f (seq (S s) k)
          | None => omap f (seq (S s) k)
          end).
  destruct (f s) as [a|] eqn:Hfs; [|lia].
  specialize (Hf _ _ Hfs). simpl. lia.
Qed.

(** Each element of set A contributes at most one accepted match. *)
Lemma length_accepted r2 global (A B : list (keypoint F)) n1 n2 :
  length (accepted r2 (work_items global) A B (Z.of_nat n1) n2) ≤ n1.
Proof.
  unfold accepted, work_items.
  etransitivity; [apply (length_omap_seq _ n1)|lia].
  intros gid a Hsome.
  destruct (Z.ltb_spec (Z.of_nat gid) (Z.of_nat n1)); [lia|discriminate].
Qed.

Lemma omap_sublist {A B} (f g : A → option B) (l : list A) :
  (∀ a b, f a = Some b → g a = Some b) →
  omap f l `sublist_of` omap g l.
Proof.
  intros Hfg. induction l as [|a l IH]; [constructor|].
  change (omap f (a :: l))
    with (match f a with Some b => b :: omap f l | None => omap f l end).
  change (omap g (a :: l))
    with (match g a with Some b => b :: omap g l | None => omap g l end).
  destruct (f a) as [b|] eqn:Hfa.
  - rewrite (Hfg _ _ Hfa). constructor. exact IH.
  - destruct (g a); [constructor|]; exact IH.
Qed.

Lemma ratio_test_mono q1 q2 best second :
  (q1 <= q2)%Q →
  ratio_test q1 best second = true → ratio_test q2 best second = true.
Proof.
  intros Hq. unfold ratio_test.
  destruct second as [s|]; rewrite !Qle_bool_iff; intros Hle;
    eapply Qle_trans; eassumption.
Qed.

Lemma match_one_mono q1 q2 (B : list (keypoint F)) a bi :
  (q1 <= q2)%Q →
  match_one q1 B a = Some bi → match_one q2 B a = Some bi.
Proof.
  intros Hq. unfold match_one.
  destruct (best_two _) as [[[i bd] sec]|]; [|discriminate].
  destruct (ratio_test q1 bd sec) eqn:Htest; [|discriminate].
  rewrite (ratio_test_mono _ _ _ _ Hq Htest). auto.
Qed.

Lemma accepted_mono q1 q2 gids (A B : list (keypoint F)) n1 n2 :
  (q1 <= q2)%Q →
  accepted q1 gids A B n1 n2 `sublist_of` accepted q2 gids A B n1 n2.
Proof.
  intros Hq. apply omap_sublist. intros gid m.
  destruct (_ <? _)%Z; [|discriminate].
  destruct (A !! gid) as [a|]; [|discriminate].
  destruct (match_one q1 _ a) as [bi|] eqn:Hone; [|discriminate].
  rewrite (match_one_mono _ _ _ _ _ Hq Hone). auto.
Qed.

Lemma square_mono (r1 r2 : Q) :
  (0 <= r1)%Q → (r1 <= r2)%Q → (r1 * r1 <= r2 * r2)%Q.
Proof.
  intros H0 Hle.
  apply Qle_trans with (r1 * r2)%Q.
  - rewrite (Qmult_comm r1 r2). apply Qmult_le_compat_r; assumption.
  - apply Qmult_le_compat_r; [assumption|].
    eapply Qle_trans; eassumption.
Qed.

End Matching.

(** C7. For fixed keypoint sets A and B and ratio thresholds
    0 <= ratio1 <= ratio2, every match accepted at ratio1 (best distance /
    second-best distance <= ratio1 squared) is accepted at ratio2, in the
    same order, so the number of accepted matches does not decrease. *)
Theorem ratio_test_monotone
    {F : Type} (A B : list (keypoint F)) (ratio1 ratio2 : Q) :
  (0 <= ratio1)%Q → (ratio1 <= ratio2)%Q →
  KernelSpec.matches_at ratio1 A B `sublist_of` KernelSpec.matches_at ratio2 A B ∧
  (∀ m, m ∈ KernelSpec.matches_at ratio1 A B → m ∈ KernelSpec.matches_at ratio2 A B) ∧
  length (KernelSpec.matches_at ratio1 A B) ≤ length (KernelSpec.matches_at ratio2 A B).
Proof.
  intros H0 Hle.
  assert (Hsub : KernelSpec.matches_at ratio1 A B
                 `sublist_of` KernelSpec.matches_at ratio2 A B).
  { apply accepted_mono, square_mono; assumption. }
  split; [exact Hsub|]. split.
  - intros m Hm. eapply elem_of_sublist; eassumption.
  - apply sublist_length, Hsub.
Qed.

Lemma ratio_test_monotone_witness :
  length (KernelSpec.matches_at (1 # 4)
            [Examples.kp 0 [0]%Z] [Examples.kp 1 [1]%Z; Examples.kp 2 [2]%Z])
  ≤ length (KernelSpec.matches_at (1 # 2)
              [Examples.kp 0 [0]%Z] [Examples.kp 1 [1]%Z; Examples.kp 2 [2]%Z]).
Proof.
  apply (ratio_test_monotone
           [Examples.kp 0 [0]%Z] [Examples.kp 1 [1]%Z; Examples.kp 2 [2]%Z]
           (1 # 4) (1 # 2)).
  - vm_compute. discriminate.
  - vm_compute. discriminate.
Defined.

(** A negative ratio is squared like any other: from -1 to 1/4 the
    threshold grows and the only match is lost. *)
Lemma ratio_test_not_monotone_below_zero :
  let A := [Examples.kp 0 [0]%Z] in
  let B := [Examples.kp 1 [1]%Z; Examples.kp 2 [2]%Z] in
  (-1 <= 1 # 4)%Q ∧
  KernelSpec.matches_at (-1) A B = [(0, 0)] ∧
  KernelSpec.matches_at (1 # 4) A B = [] ∧
  ¬ (length (KernelSpec.matches_at (-1) A B)
     ≤ length (KernelSpec.matches_at (1 # 4) A B)).
Proof.
  intros A B. split; [vm_compute; discriminate|].
  split; [vm_compute; reflexivity|].
  split; [vm_compute; reflexivity|].
  vm_compute. lia.
Qed.

(** ** The counter after a call *)

Section Counter.
Import Utils MatchPlan KernelSpec.
Context {F : Type} `{D : Device F}.

Lemma buf_cnt_matched (nkp1 nkp2 : hostarray F) (p : plan F) :
  buf_cnt (matched nkp1 nkp2 p) =
  buf_cnt (launched nkp1 nkp2
             (recorded ["copy H->D KP_1"; "copy H->D KP_2"]%string
                (uploaded_2 nkp2 (uploaded_1 nkp1 (reset (grown nkp1 nkp2 p)))))).
Proof. unfold matched. apply buf_cnt_recorded. Qed.

Lemma buf_cnt_grown (nkp1 nkp2 : hostarray F) (p : plan F) :
  buf_cnt (grown nkp1 nkp2 p) = buf_cnt p.
Proof.
  unfold grown.
  destruct (_ <? size_of nkp1); cbn [buf_Kp_2 set_Kp_1];
    destruct (_ <? size_of nkp2); cbn [buf_match set_Kp_1 set_Kp_2];
    destruct (_ <? _ `min` _); reflexivity.
Qed.

(** With the kernels of the specification, the counter that the call
    downloads is the number of accepted matches among the first
    [size_of nkp1] work items. *)
Lemma counter_after_matching (nkp1 nkp2 : hostarray F) (p : plan F) sz :
  follows_spec D →
  data (buf_cnt (matched nkp1 nkp2 p)) !! 0 = Some sz →
  ∃ r2 global (A B : list (keypoint F)) n2,
    sz = Z.of_nat (length (accepted r2 (work_items global) A B
                                    (Z.of_nat (size_of nkp1)) n2)).
Proof.
  intros (_ & Hint & Hmatching). rewrite buf_cnt_matched.
  set (q := recorded _ (uploaded_2 nkp2 (uploaded_1 nkp1 (reset (grown nkp1 nkp2 p))))).
  assert (Hq : data (buf_cnt q) = <[0:=0%Z]> (data (buf_cnt p))).
  { subst q. rewrite buf_cnt_recorded.
    cbn [uploaded_2 uploaded_1 set_Kp_2 set_Kp_1 buf_cnt reset].
    rewrite data_written, Hint, buf_cnt_grown. reflexivity. }
  unfold launched. cbn [buf_cnt set_cnt]. rewrite data_written, Hmatching.
  unfold matching_spec. cbn [snd apply_writes foldl fst]. rewrite Hq.
  destruct (data (buf_cnt p)) as [|c d]; [discriminate|].
  cbn. intros [= <-]. eexists _, _, _, _, _. reflexivity.
Qed.

End Counter.

(** C2. Under the specified matching semantics, in which each element of
    setA contributes at most one accepted match, the Match Result returned
    by [match(A, B)] on keypoint records has length at most [len(A)]. *)
Theorem match_result_at_most_setA
    {F : Type} `{D : MatchPlan.Device F}
    (setA setB : MatchPlan.hostarray F) (p p' : MatchPlan.plan F)
    (res : list (keypoint F * keypoint F)) (t : list MatchPlan.event) :
  KernelSpec.follows_spec D →
  MatchPlan.dtype_ setA = MatchPlan.dtype_kp →
  MatchPlan.dtype_ setB = MatchPlan.dtype_kp →
  MatchPlan.match_ setA setB p = (Ok res, p', t) →
  length res ≤ MatchPlan.size_of setA.
Proof.
  intros Hspec HdA HdB Hmatch.
  destruct (match_ok_inv _ _ _ _ _ _ Hmatch) as (_ & -> & Hasm).
  destruct (assembled_ok_inv _ _ _ _ HdA HdB Hasm) as (sz & Hsz & _ & Hlen & _).
  destruct (counter_after_matching _ _ _ _ Hspec Hsz)
    as (r2 & global & A & B & n2 & ->).
  rewrite Hlen, Nat2Z.id. apply length_accepted.
Qed.

Lemma match_result_at_most_setA_witness :
  length [(Examples.kp 0 [1; 2; 3]%Z, Examples.kp 1 [1; 2; 3]%Z)]
  ≤ MatchPlan.size_of (Examples.recarray_of [Examples.kp 0 [1; 2; 3]%Z]).
Proof.
  apply (@match_result_at_most_setA Z (Examples.dev (8 # 10))
           (Examples.recarray_of [Examples.kp 0 [1; 2; 3]%Z])
           (Examples.recarray_of [Examples.kp 1 [1; 2; 3]%Z])
           (Examples.fresh_plan (8 # 10) 4)
           (Examples.call (8 # 10) 4
              (Examples.recarray_of [Examples.kp 0 [1; 2; 3]%Z])
              (Examples.recarray_of [Examples.kp 1 [1; 2; 3]%Z])).1.2
           [(Examples.kp 0 [1; 2; 3]%Z, Examples.kp 1 [1; 2; 3]%Z)]
           (Examples.call (8 # 10) 4
              (Examples.recarray_of [Examples.kp 0 [1; 2; 3]%Z])
              (Examples.recarray_of [Examples.kp 1 [1; 2; 3]%Z])).2).
  - repeat split.
  - reflexivity.
  - reflexivity.
  - vm_compute. reflexivity.
Defined.

(** Three keypoints of set A with the same descriptor all match the same
    keypoint of a two-element set B: three pairs, more than
    [min(len(A), len(B)) = 2]. *)
Lemma match_result_exceeds_setB :
  let A := Examples.recarray_of
             [Examples.kp 0 [1; 2; 3]; Examples.kp 1 [1; 2; 3]; Examples.kp 2 [1; 2; 3]]%Z in
  let B := Examples.recarray_of
             [Examples.kp 3 [1; 2; 3]; Examples.kp 4 [100; 200; 3]]%Z in
  ∃ res, (Examples.call (8 # 10) 4 A B).1.1 = Ok res ∧
         length res = 3 ∧
         MatchPlan.size_of A `min` MatchPlan.size_of B = 2 ∧
         ¬ (length res ≤ MatchPlan.size_of A `min` MatchPlan.size_of B).
Proof.
  intros A B. eexists. split; [vm_compute; reflexivity|].
  split; [reflexivity|]. split; [reflexivity|]. simpl. lia.
Qed.
(** * Further properties of the code

    Properties of the functions above that the code itself shows, beyond
    the claims: the other helpers of [utils.py], and what a [MatchPlan]
    does and keeps across its calls. *)

(** ** [_gcd] *)

Section Gcd.
Import Utils.
Local Open Scope Z_scope.

Lemma _gcd_zero a : _gcd a 0 = a.
Proof. rewrite _gcd_equation_1. destruct (Z.eq_dec 0 0); [reflexivity|lia]. Qed.

Lemma _gcd_step a b : b ≠ 0 → _gcd a b = _gcd b (a mod b).
Proof.
  intros Hb. rewrite _gcd_equation_1 at 1.
  destruct (Z.eq_dec b 0); [contradiction|reflexivity].
Qed.

(** With a divisor other than 0 the loop returns the greatest common
    divisor with the sign of the divisor. *)
Lemma _gcd_signed a b : b ≠ 0 → _gcd a b = Z.sgn b * Z.gcd a b.
Proof.
  remember (Z.abs_nat b) as n eqn:Hn. revert a b Hn.
  induction n as [n IH] using lt_wf_ind. intros a b Hn Hb.
  rewrite (_gcd_step a b Hb).
  destruct (Z.eq_dec (a mod b) 0) as [Hz|Hnz].
  - rewrite Hz, _gcd_zero.
    assert (Hdiv : (b | a)) by (apply Z.mod_divide; assumption).
    assert (Hg : Z.gcd a b = Z.abs b).
    { rewrite Z.gcd_comm, <- Z.gcd_abs_l.
      apply Z.divide_gcd_iff; [lia|]. apply Z.divide_abs_l. exact Hdiv. }
    rewrite Hg. lia.
  - pose proof (Z.mod_bound_or a b Hb) as Hbound.
    rewrite (IH (Z.abs_nat (a mod b)) ltac:(lia) b (a mod b) eq_refl Hnz).
    rewrite (Z.mod_sign_nz a b Hb Hnz).
    rewrite (Z.gcd_comm b), (Z.gcd_mod a b Hb), Z.gcd_comm. reflexivity.
Qed.

End Gcd.

(** X1. [_gcd a b] ends for all integers. It returns [a] itself when [b] is
    0, the greatest common divisor when [b] is positive and its opposite
    when [b] is negative: up to sign it is always the greatest common
    divisor, and it is non-negative only for [b > 0] or [b = 0 <= a]. *)
Theorem gcd_loop_returns_signed_gcd (a b : Z) :
  (b = 0 → Utils._gcd a b = a)%Z ∧
  (0 < b → Utils._gcd a b = Z.gcd a b)%Z ∧
  (b < 0 → Utils._gcd a b = - Z.gcd a b)%Z ∧
  Z.abs (Utils._gcd a b) = Z.gcd a b ∧
  (Utils._gcd a b | a)%Z ∧ (Utils._gcd a b | b)%Z ∧
  (∀ c, (c | a) → (c | b) → (c | Utils._gcd a b))%Z.
Proof.
  assert (Habs : Z.abs (Utils._gcd a b) = Z.gcd a b).
  { destruct (Z.eq_dec b 0%Z) as [->|Hb].
    - rewrite _gcd_zero, Z.gcd_0_r. reflexivity.
    - rewrite (_gcd_signed a b Hb).
      pose proof (Z.gcd_nonneg a b). destruct b; simpl; lia. }
  split; [intros ->; apply _gcd_zero|].
  split; [intros Hb; rewrite _gcd_signed by lia; rewrite Z.sgn_pos by lia; lia|].
  split; [intros Hb; rewrite _gcd_signed by lia; rewrite Z.sgn_neg by lia; lia|].
  split; [exact Habs|].
  split; [apply Z.divide_abs_l; rewrite Habs; apply Z.gcd_divide_l|].
  split; [apply Z.divide_abs_l; rewrite Habs; apply Z.gcd_divide_r|].
  intros c Ha Hb. apply Z.divide_abs_r. rewrite Habs.
  apply Z.gcd_greatest; assumption.
Qed.

Lemma gcd_loop_returns_signed_gcd_witness :
  Utils._gcd 4 (-6) = (- Z.gcd 4 (-6))%Z ∧ Utils._gcd 4 (-6) = (-2)%Z.
Proof.
  destruct (gcd_loop_returns_signed_gcd 4 (-6)) as (_ & _ & Hneg & _).
  split; [apply Hneg; lia|]. rewrite Hneg by lia. reflexivity.
Defined.

(** ** [calc_size] on any block size *)

Section CalcSizeAnyBlock.
Import Utils.
Local Open Scope Z_scope.

Lemma land_mask_bounds x m : 0 ≤ m → 0 ≤ Z.land x m ≤ m.
Proof.
  intros Hm. split; [apply Z.land_nonneg; auto|].
  assert (Hsplit : Z.ldiff m x + Z.land m x = m).
  { rewrite Z.add_nocarry_lor; [apply Z.lor_ldiff_and|].
    rewrite (Z.land_comm m x), Z.land_assoc, Z.land_ldiff. reflexivity. }
  assert (0 ≤ Z.ldiff m x) by (apply Z.ldiff_nonneg; auto).
  rewrite (Z.land_comm x m). lia.
Qed.

(** The mask clears the bits of [j - 1] in [i + j - 1]. *)
Lemma round_to_block_clears i j :
  round_to_block i j = i + j - 1 - Z.land (i + j - 1) (j - 1).
Proof.
  unfold round_to_block. rewrite <- Z.ldiff_land.
  assert (Hsplit : Z.ldiff (i + j - 1) (j - 1) + Z.land (i + j - 1) (j - 1)
                   = i + j - 1).
  { rewrite Z.add_nocarry_lor; [apply Z.lor_ldiff_and|].
    rewrite (Z.land_comm (i + j - 1) (j - 1)), Z.land_assoc, Z.land_ldiff.
    reflexivity. }
  lia.
Qed.

Lemma round_to_block_bounds i j :
  1 ≤ j → i ≤ round_to_block i j ≤ i + j - 1.
Proof.
  intros Hj. rewrite round_to_block_clears.
  pose proof (land_mask_bounds (i + j - 1) (j - 1) ltac:(lia)). lia.
Qed.

Lemma round_to_block_zero i : round_to_block i 0 = 0.
Proof. unfold round_to_block. simpl. apply Z.land_0_r. Qed.

Lemma round_to_block_fixed i j :
  power_of_two j → round_to_block i j = i ↔ (j | i).
Proof.
  intros Hp.
  destruct (round_to_block_spec i j Hp) as (_ & Hle & _ & Hdiv & Hleast).
  split.
  - intros <-. exact Hdiv.
  - intros Hi. specialize (Hleast i Hi ltac:(lia)). lia.
Qed.

Lemma round_to_block_idempotent i j :
  power_of_two j → round_to_block (round_to_block i j) j = round_to_block i j.
Proof.
  intros Hp. apply round_to_block_fixed; [exact Hp|].
  destruct (round_to_block_spec i j Hp) as (_ & _ & _ & Hdiv & _). exact Hdiv.
Qed.

Lemma round_to_block_mono i i' j :
  power_of_two j → i ≤ i' → round_to_block i j ≤ round_to_block i' j.
Proof.
  intros Hp Hle. rewrite !round_to_block_div by exact Hp.
  pose proof (power_of_two_pos j Hp).
  apply Z.mul_le_mono_nonneg_r; [lia|].
  apply Z.div_le_mono; lia.
Qed.

Lemma zip_with_round_idempotent shape js :
  Forall power_of_two js →
  zip_with round_to_block (zip_with round_to_block shape js) js
  = zip_with round_to_block shape js.
Proof.
  intros Hjs. revert shape. induction Hjs as [|j js Hj Hjs IH]; intros shape.
  - destruct shape; reflexivity.
  - destruct shape as [|i shape]; [reflexivity|]. simpl.
    rewrite round_to_block_idempotent by exact Hj. rewrite IH. reflexivity.
Qed.

End CalcSizeAnyBlock.

(** X2. For a block size of at least 1, a power of two or not, each entry
    of [calc_size] lies between the dimension and the dimension plus the
    block size minus 1: the launch grid covers the shape. It need not be a
    multiple of a block size that is not a power of two (1 for dimension 1
    and block 3), and a block size of 0 gives 0 whatever the dimension. *)
Theorem calc_size_covers_shape (shape : list Z) (b : Utils.blocksize) :
  (∀ d i j, shape !! d = Some i → Utils.block_at b d = Some j → (1 ≤ j)%Z →
     ∃ r, Utils.calc_size shape b !! d = Some r ∧ (i ≤ r ≤ i + j - 1)%Z) ∧
  Utils.calc_size shape (Utils.BlockInt 0) = replicate (length shape) 0%Z ∧
  Utils.calc_size [1%Z] (Utils.BlockInt 3) = [1%Z].
Proof.
  split; [|split].
  - intros d i j Hi Hj Hpos. exists (Utils.round_to_block i j).
    split; [apply calc_size_lookup; assumption|].
    apply round_to_block_bounds, Hpos.
  - unfold Utils.calc_size. induction shape as [|i shape IH]; [reflexivity|].
    rewrite fmap_cons, IH, round_to_block_zero. reflexivity.
  - reflexivity.
Qed.

Lemma calc_size_covers_shape_witness :
  ∃ r, Utils.calc_size [10; 7]%Z (Utils.BlockSeq [3; 5]%Z) !! 1%nat = Some r ∧
       (7 ≤ r ≤ 11)%Z.
Proof.
  destruct (calc_size_covers_shape [10; 7]%Z (Utils.BlockSeq [3; 5]%Z)) as [Hin _].
  apply (Hin 1%nat 7%Z 5%Z); [reflexivity|reflexivity|lia].
Defined.

(** X3. With block sizes that are powers of two, [calc_size] changes a
    dimension exactly when it is not already a multiple of its block size,
    so applying it twice is the same as applying it once; a block size of 1
    leaves every dimension as it is. *)
Theorem calc_size_idempotent (shape : list Z) (b : Utils.blocksize) :
  Forall power_of_two (Utils.block_entries b) →
  Utils.calc_size (Utils.calc_size shape b) b = Utils.calc_size shape b ∧
  (∀ d i j, shape !! d = Some i → Utils.block_at b d = Some j →
     Utils.calc_size shape b !! d = Some i ↔ (j | i)%Z) ∧
  Utils.calc_size shape (Utils.BlockInt 1) = shape.
Proof.
  intros Hpow. split; [|split].
  - destruct b as [js|j]; simpl in *.
    + apply zip_with_round_idempotent, Hpow.
    + rewrite <- list_fmap_compose. apply list_fmap_ext.
      intros k i _. simpl. apply round_to_block_idempotent.
      inversion Hpow; assumption.
  - intros d i j Hi Hj.
    rewrite (calc_size_lookup _ _ _ _ _ Hi Hj).
    assert (Hp : power_of_two j).
    { rewrite Forall_forall in Hpow. apply Hpow. eapply block_at_entry, Hj. }
    rewrite <- (round_to_block_fixed i j Hp).
    split; [intros [= ->]; reflexivity|intros ->; reflexivity].
  - unfold Utils.calc_size. induction shape as [|i shape IH]; [reflexivity|].
    rewrite fmap_cons, IH. f_equal.
    apply round_to_block_fixed; [exists 0%Z; split; [lia|reflexivity]|].
    apply Z.divide_1_l.
Qed.

Lemma calc_size_idempotent_witness :
  Utils.calc_size (Utils.calc_size [497; 579]%Z (Utils.BlockSeq [1; 128]%Z))
                  (Utils.BlockSeq [1; 128]%Z)
  = Utils.calc_size [497; 579]%Z (Utils.BlockSeq [1; 128]%Z).
Proof.
  apply (calc_size_idempotent [497; 579]%Z (Utils.BlockSeq [1; 128]%Z)).
  simpl. repeat constructor; [exists 0%Z | exists 7%Z]; split; (lia || reflexivity).
Defined.

(** X4. With block sizes that are powers of two, [calc_size] is monotone: a
    shape that is larger in every dimension gets a grid that is larger in
    every dimension. A block size of 3 breaks this: dimension 3 gives 5 and
    dimension 4 gives 4. *)
Theorem calc_size_monotone (shape shape' : list Z) (b : Utils.blocksize) :
  Forall power_of_two (Utils.block_entries b) →
  Forall2 Z.le shape shape' →
  Forall2 Z.le (Utils.calc_size shape b) (Utils.calc_size shape' b) ∧
  (Utils.round_to_block 4 3 < Utils.round_to_block 3 3)%Z.
Proof.
  intros Hpow Hle. split; [|reflexivity].
  destruct b as [js|j]; simpl in *.
  - revert js Hpow. induction Hle as [|i i' shape shape' Hi Hle IH]; intros js Hpow.
    + constructor.
    + destruct js as [|j js]; [constructor|].
      inversion Hpow as [|? ? Hj Hjs]; subst. simpl. constructor.
      * apply round_to_block_mono; assumption.
      * apply IH, Hjs.
  - inversion Hpow as [|? ? Hj _]; subst.
    induction Hle as [|i i' shape shape' Hi Hle IH]; simpl; constructor.
    + apply round_to_block_mono; assumption.
    + exact IH.
Qed.

Lemma calc_size_monotone_witness :
  Forall2 Z.le (Utils.calc_size [5; 7]%Z (Utils.BlockInt 4))
               (Utils.calc_size [6; 9]%Z (Utils.BlockInt 4)).
Proof.
  apply (calc_size_monotone [5; 7]%Z [6; 9]%Z (Utils.BlockInt 4)).
  - simpl. repeat constructor. exists 2%Z. split; [lia|reflexivity].
  - repeat constructor; lia.
Defined.

(** ** [sizeof] *)

Section SizeOf.
Import Utils.
Local Open Scope Z_scope.

Lemma foldl_mul_acc a dims : foldl Z.mul a dims = a * foldr Z.mul 1 dims.
Proof.
  revert a. induction dims as [|n dims IH]; intros a; simpl; [lia|].
  rewrite IH. lia.
Qed.

Lemma product_permutation dims dims' :
  dims ≡ₚ dims' → foldr Z.mul 1 dims = foldr Z.mul 1 dims'.
Proof.
  induction 1 as [|n l l' _ IH|n m l|l l' l'' _ IH1 _ IH2]; simpl;
    [reflexivity|rewrite IH; reflexivity|lia|congruence].
Qed.

Lemma product_zero dims : foldr Z.mul 1 dims = 0 ↔ 0 ∈ dims.
Proof.
  induction dims as [|n dims IH]; simpl.
  - split; [lia|]. intros Hin. inversion Hin.
  - rewrite elem_of_cons, <- IH. split.
    + intros Hz. apply Z.mul_eq_0 in Hz as [->|Hz]; auto.
    + intros [<-|Hz]; [reflexivity|]. rewrite Hz. lia.
Qed.

End SizeOf.

(** X5. [sizeof] of a sequence of dimensions is their product times the
    item size of the dtype: it does not depend on the order of the
    dimensions, it is multiplicative over concatenation, and with a
    non-zero item size it is 0 exactly when a dimension is 0. A one-element
    sequence and the plain number give the same size, and [n] Descriptor
    Records of [MatchPlan.dtype_kp] take [144 * n] bytes. *)
Theorem sizeof_is_product (dims dims' : list Z) (d : Utils.np_dtype) :
  Utils.sizeof (Utils.ShapeSeq dims) d = (foldr Z.mul 1 dims * Utils.itemsize d)%Z ∧
  (dims ≡ₚ dims' →
     Utils.sizeof (Utils.ShapeSeq dims) d = Utils.sizeof (Utils.ShapeSeq dims') d) ∧
  (Utils.sizeof (Utils.ShapeSeq (dims ++ dims')) d * Utils.itemsize d =
     Utils.sizeof (Utils.ShapeSeq dims) d * Utils.sizeof (Utils.ShapeSeq dims') d)%Z ∧
  (Utils.itemsize d ≠ 0%Z →
     Utils.sizeof (Utils.ShapeSeq dims) d = 0%Z ↔ 0%Z ∈ dims) ∧
  (∀ n, Utils.sizeof (Utils.ShapeSeq [n]) d = Utils.sizeof (Utils.ShapeInt n) d) ∧
  (∀ n, Utils.sizeof (Utils.ShapeInt n) MatchPlan.dtype_kp_layout = 144 * n)%Z.
Proof.
  assert (Hprod : ∀ l, Utils.sizeof (Utils.ShapeSeq l) d
                       = (foldr Z.mul 1 l * Utils.itemsize d)%Z).
  { intros l. unfold Utils.sizeof. rewrite foldl_mul_acc. lia. }
  split; [apply Hprod|]. split; [|split; [|split; [|split]]].
  - intros Hperm. rewrite !Hprod, (product_permutation _ _ Hperm). reflexivity.
  - rewrite !Hprod, foldr_app.
    assert (Hacc : ∀ a l, foldr Z.mul a l = (foldr Z.mul 1 l * a)%Z).
    { intros a l. induction l as [|n l IH]; simpl; [lia|]. rewrite IH. lia. }
    rewrite (Hacc (foldr Z.mul 1%Z dims')). lia.
  - intros Hsize. rewrite Hprod, <- product_zero. split.
    + intros Hz. apply Z.mul_eq_0 in Hz as [Hz|Hz]; [exact Hz|contradiction].
    + intros ->. reflexivity.
  - intros n. unfold Utils.sizeof. simpl. f_equal. lia.
  - intros n. unfold Utils.sizeof. simpl. lia.
Qed.

Lemma sizeof_is_product_witness :
  Utils.sizeof (Utils.ShapeSeq [16384; 2]%Z) (Utils.Plain Utils.np_int32)
  = Utils.sizeof (Utils.ShapeSeq [2; 16384]%Z) (Utils.Plain Utils.np_int32).
Proof.
  destruct (sizeof_is_product [16384; 2]%Z [2; 16384]%Z (Utils.Plain Utils.np_int32))
    as (_ & Hperm & _).
  apply Hperm. apply Permutation_swap.
Defined.

(** ** [kernel_size] *)

Section KernelSize.
Import Utils.
Local Open Scope Z_scope.

(** What [kernel_size] computes before it looks at [odd]. *)
Lemma kernel_size_unfold sigma odd cutoff :
  kernel_size sigma odd cutoff =
  match kernel_size sigma false cutoff with
  | Return size => Return (if odd && (size mod 2 =? 0) then size + 1 else size)
  | Throw e => Throw e
  end.
Proof.
  unfold kernel_size, obind.
  destruct (number_mul (PyInt 2) cutoff) as [a|]; [|reflexivity].
  destruct (number_mul a sigma) as [b|]; [|reflexivity].
  destruct (number_add b (PyInt 1)) as [c|]; [|reflexivity].
  destruct (ceil_int c) as [size|]; [|reflexivity].
  reflexivity.
Qed.

End KernelSize.

(** X6. [kernel_size] with [odd] set returns the size computed without it
    when that size is odd and the next integer when it is even, so the
    result is always odd; the flag has no influence on whether the call
    raises. *)
Theorem kernel_size_odd_on_request (sigma cutoff : Utils.number) :
  (∀ c, Utils.kernel_size sigma false cutoff = Return c →
        Utils.kernel_size sigma true cutoff
        = Return (if Z.even c then (c + 1)%Z else c)) ∧
  (∀ size, Utils.kernel_size sigma true cutoff = Return size →
           Z.odd size = true) ∧
  (∀ e, Utils.kernel_size sigma false cutoff = Throw e ↔
        Utils.kernel_size sigma true cutoff = Throw e).
Proof.
  rewrite (kernel_size_unfold sigma true cutoff).
  destruct (Utils.kernel_size sigma false cutoff) as [c|e0]; cbn [andb].
  - rewrite <- Zeven_mod.
    split; [intros ? [= <-]; reflexivity|]. split.
    + intros size [= <-]. destruct (Z.even c) eqn:Heven.
      * rewrite Z.add_1_r, Z.odd_succ. exact Heven.
      * rewrite <- Z.negb_even, Heven. reflexivity.
    + intros e. split; discriminate.
  - split; [discriminate|]. split; [discriminate|].
    intros e. split; intros [= <-]; reflexivity.
Qed.

Lemma kernel_size_odd_on_request_witness :
  Utils.kernel_size (Utils.PyFloat Examples.float_1_6) false (Utils.PyInt 4) = Return 14%Z ∧
  Utils.kernel_size (Utils.PyFloat Examples.float_1_6) true (Utils.PyInt 4) = Return 15%Z.
Proof.
  destruct (kernel_size_odd_on_request (Utils.PyFloat Examples.float_1_6) (Utils.PyInt 4))
    as (Hodd & _).
  split; [vm_compute; reflexivity|].
  apply (Hodd 14%Z). vm_compute. reflexivity.
Defined.

(** ** What [matching_correction] reads *)

Section MatchingCorrectionInputs.
Import Utils.
Context {T : Type} `{Scalar T} `{LinAlg T}.

(** The four coordinates of a pair. *)
Lemma coordinates_fmap {A} (f : T * T * T * T → A)
    (m1 m2 : list (keypoint T * keypoint T)) :
  (λ p, (x p.1, y p.1, x p.2, y p.2)) <$> m1
  = (λ p, (x p.1, y p.1, x p.2, y p.2)) <$> m2 →
  (λ p, f (x p.1, y p.1, x p.2, y p.2)) <$> m1
  = (λ p, f (x p.1, y p.1, x p.2, y p.2)) <$> m2.
Proof.
  intros Heq.
  change (λ p : keypoint T * keypoint T, f (x p.1, y p.1, x p.2, y p.2))
    with (f ∘ (λ p : keypoint T * keypoint T, (x p.1, y p.1, x p.2, y p.2))).
  rewrite !list_fmap_compose, Heq. reflexivity.
Qed.

End MatchingCorrectionInputs.

(** X7. [matching_correction] reads nothing but the coordinates [x] and [y]
    of the matched keypoints: two Match Results whose pairs have the same
    coordinates, whatever their scales, angles and descriptors, give the
    same outcome (the same solution or the same exception). *)
Theorem matching_correction_reads_coordinates_only
    {T : Type} `{Utils.Scalar T} `{Utils.LinAlg T}
    (m1 m2 : list (keypoint T * keypoint T)) :
  (λ p, (x p.1, y p.1, x p.2, y p.2)) <$> m1
  = (λ p, (x p.1, y p.1, x p.2, y p.2)) <$> m2 →
  Utils.build_X m1 = Utils.build_X m2 ∧
  Utils.build_y m1 = Utils.build_y m2 ∧
  Utils.matching_correction m1 = Utils.matching_correction m2.
Proof.
  intros Heq.
  assert (Hlen : length m1 = length m2).
  { rewrite <- (length_fmap (λ p, (x p.1, y p.1, x p.2, y p.2)) m1), Heq.
    apply length_fmap. }
  pose proof (coordinates_fmap (λ c, c.1.1.1) m1 m2 Heq) as Hx1.
  pose proof (coordinates_fmap (λ c, c.1.1.2) m1 m2 Heq) as Hy1.
  pose proof (coordinates_fmap (λ c, c.1.2) m1 m2 Heq) as Hx2.
  pose proof (coordinates_fmap (λ c, c.2) m1 m2 Heq) as Hy2.
  cbn [fst snd] in Hx1, Hy1, Hx2, Hy2.
  assert (HX : Utils.build_X m1 = Utils.build_X m2).
  { unfold Utils.build_X. rewrite Hlen, Hx1, Hy1. reflexivity. }
  assert (Hy : Utils.build_y m1 = Utils.build_y m2).
  { unfold Utils.build_y. rewrite Hlen, Hx2, Hy2. reflexivity. }
  split; [exact HX|]. split; [exact Hy|].
  unfold Utils.matching_correction. rewrite HX, Hy. reflexivity.
Qed.

Lemma matching_correction_reads_coordinates_only_witness :
  @Utils.matching_correction Z Examples.Z_scalar Examples.sample_linalg
    [ (Keypoint 0 0 5 7 [1; 2], Keypoint 3 1 5 7 []);
      (Keypoint 1 0 9 9 [], Keypoint 5 0 2 2 [3]);
      (Keypoint 0 1 4 4 [8], Keypoint 4 2 6 6 []) ]%Z
  = @Utils.matching_correction Z Examples.Z_scalar Examples.sample_linalg
      Examples.sample_matching.
Proof.
  apply (@matching_correction_reads_coordinates_only
           Z Examples.Z_scalar Examples.sample_linalg).
  reflexivity.
Defined.

(** X8. On a Match Result without pairs, [matching_correction] builds a
    design matrix without rows, so the matrix it hands to
    [numpy.linalg.inv] is the 6 x 6 zero matrix: when the inverse refuses
    it, the call raises [LinAlgError]. *)
Theorem matching_correction_empty
    {T : Type} `{Utils.Scalar T} `{Utils.LinAlg T} :
  ∃ X A,
    Utils.build_X [] = Ok X ∧ Utils.nrows X = 0 ∧ Utils.ncols X = 6 ∧
    Utils.dot (Utils.transpose X) X = Ok A ∧
    A = Utils.zeros 6 6 ∧
    Utils.matching_correction [] =
      match Utils.inv (Utils.zeros 6 6) with
      | Some Ai => Utils.dot Ai (Utils.zeros 6 1)
      | None => Raise LinAlgError
      end.
Proof.
  eexists _, _. split; [reflexivity|].
  split; [reflexivity|]. split; [reflexivity|].
  split; [reflexivity|]. split; [reflexivity|].
  unfold Utils.matching_correction, Utils.linalg_inv, rbind. cbn.
  destruct (Utils.inv _); reflexivity.
Qed.

(** ** The events of a call, exactly *)

Section Traces.
Import Utils MatchPlan.
Context {F : Type} `{Device F}.
Local Open Scope plan_scope.

Lemma bind_inv {A B} (m : M F A) (k : A → M F B) (p : plan F) r p2 t :
  bind m k p = (r, p2, t) →
  (∃ a p1 t1 t2, m p = (Ok a, p1, t1) ∧ k a p1 = (r, p2, t2) ∧ t = t1 ++ t2) ∨
  (∃ e, m p = (Raise e, p2, t) ∧ r = Raise e).
Proof.
  unfold bind. destruct (m p) as [[[a|e] p1] t1].
  - destruct (k a p1) as [[r' p2'] t2] eqn:Hk. intros [= <- <- <-].
    left. exists a, p1, t1, t2. auto.
  - intros [= <- <- <-]. right. exists e. auto.
Qed.

Lemma grow_buffers_events (nkp1 nkp2 : hostarray F) (p : plan F) :
  grow_buffers nkp1 nkp2 p
  = (Ok tt, grown nkp1 nkp2 p, grow_events nkp1 nkp2 p).
Proof.
  unfold grow_buffers, grown, grow_events, bind, get, emit, modify, ret.
  destruct p as [prof ks cpu evs b1 b2 bm bc]. cbn -[Nat.ltb Nat.min].
  destruct (size b1 <? size_of nkp1); cbn -[Nat.ltb Nat.min];
    destruct (size b2 <? size_of nkp2); cbn -[Nat.ltb Nat.min];
    destruct (size bm <? size_of nkp2 `min` size_of nkp1); reflexivity.
Qed.

Lemma _reset_buffer_events (p : plan F) :
  _reset_buffer p = (Ok tt, reset p, reset_events p).
Proof.
  unfold _reset_buffer, reset, reset_events, memset_global, record_events,
    bind, get, put, emit, modify, ret.
  destruct p as [prof ks cpu evs b1 b2 bm bc]. cbn.
  destruct prof; reflexivity.
Qed.

(** A returning assembly has downloaded the counter and the matches. *)
Lemma assemble_ok_events (nkp1 nkp2 : hostarray F) (p : plan F) res p' t :
  assemble nkp1 nkp2 p = (Ok res, p', t) → t = [Get "cnt"; Get "match"].
Proof.
  unfold assemble, bind, get, emit, lift, ret.
  cbn -[Z.ltb column fancy_index assign_column].
  destruct (data (buf_cnt p) !! 0) as [sz|];
    cbn -[Z.ltb column fancy_index assign_column]; [|discriminate].
  destruct (sz <? 0)%Z;
    cbn -[Z.ltb column fancy_index assign_column]; [discriminate|].
  destruct (column (buf_match p) (Z.to_nat sz) 0) as [i0|];
    cbn -[column fancy_index assign_column]; [|discriminate].
  destruct (fancy_index nkp1 i0) as [a|];
    cbn -[column fancy_index assign_column]; [|discriminate].
  destruct (assign_column (dtype_ nkp1) (Z.to_nat sz) a) as [c0|];
    cbn -[column fancy_index assign_column]; [|discriminate].
  destruct (column (buf_match p) (Z.to_nat sz) 1) as [i1|];
    cbn -[column fancy_index assign_column]; [|discriminate].
  destruct (fancy_index nkp2 i1) as [b|];
    cbn -[column fancy_index assign_column]; [|discriminate].
  destruct (assign_column (dtype_ nkp2) (Z.to_nat sz) b) as [c1|];
    cbn -[column fancy_index assign_column]; [|discriminate].
  intros [= _ _ <-]. reflexivity.
Qed.

Lemma matching_kernel_recorded evs (p : plan F) :
  matching_kernel (recorded evs p) = matching_kernel p.
Proof. unfold recorded. destruct (profile p); reflexivity. Qed.

Lemma matching_kernel_grown (nkp1 nkp2 : hostarray F) (p : plan F) :
  matching_kernel (grown nkp1 nkp2 p) = matching_kernel p.
Proof.
  unfold grown.
  destruct (_ <? size_of nkp1); cbn [buf_Kp_2 set_Kp_1];
    destruct (_ <? size_of nkp2); cbn [buf_match set_Kp_1 set_Kp_2];
    destruct (_ <? _ `min` _); reflexivity.
Qed.

Lemma matching_kernel_reset (p : plan F) :
  matching_kernel (reset p) = matching_kernel p.
Proof. reflexivity. Qed.

(** The events of lines 191-210 when they run to the end. *)
Lemma after_reset_ok_events (nkp1 nkp2 : hostarray F) (p2 : plan F) res p' t :
  after_reset nkp1 nkp2 p2 = (Ok res, p', t) →
  t = [CopyH2D "Kp_1"; CopyH2D "Kp_2"; matching_launch nkp1 p2;
       Get "cnt"; Get "match"].
Proof.
  unfold after_reset. intros Hrun.
  apply bind_inv in Hrun as [(a1 & q1 & t1 & u1 & Hc1 & Hrun & ->)|(e & _ & [=])].
  rewrite enqueue_copy_Kp_1_run in Hc1.
  destruct (length (items nkp1) <=? _); [|discriminate].
  injection Hc1 as _ <- <-.
  apply bind_inv in Hrun as [(a2 & q2 & t2 & u2 & Hc2 & Hrun & ->)|(e & _ & [=])].
  rewrite enqueue_copy_Kp_2_run in Hc2.
  destruct (length (items nkp2) <=? _); [|discriminate].
  injection Hc2 as _ <- <-.
  apply bind_inv in Hrun as [(a3 & q3 & t3 & u3 & Hr1 & Hrun & ->)|(e & _ & [=])].
  rewrite record_events_run in Hr1. injection Hr1 as _ <- <-.
  apply bind_inv in Hrun as [(a4 & q4 & t4 & u4 & Hl & Hrun & ->)|(e & _ & [=])].
  rewrite launch_matching_run in Hl. injection Hl as _ <- <-.
  apply bind_inv in Hrun as [(a5 & q5 & t5 & u5 & Hr2 & Hrun & ->)|(e & _ & [=])].
  rewrite record_events_run in Hr2. injection Hr2 as _ <- <-.
  apply assemble_ok_events in Hrun as ->.
  unfold matching_launch. rewrite matching_kernel_recorded. reflexivity.
Qed.

(** The events of lines 191-210, however they end: uploads, the launch of
    the matching kernel and downloads. *)
Lemma after_reset_events (nkp1 nkp2 : hostarray F) (p2 : plan F) r p' t :
  after_reset nkp1 nkp2 p2 = (r, p', t) →
  Forall (λ ev, match ev with
                | CopyH2D _ | Get _ | Launch _ "matching" _ _ => True
                | _ => False
                end) t.
Proof.
  unfold after_reset. intros Hrun.
  apply bind_inv in Hrun as [(a1 & q1 & t1 & u1 & Hc1 & Hrun & ->)|(e & Hc1 & _)];
    rewrite enqueue_copy_Kp_1_run in Hc1;
    destruct (length (items nkp1) <=? _); try discriminate;
    [|injection Hc1 as _ _ <-; constructor].
  injection Hc1 as _ <- <-. constructor; [exact I|].
  apply bind_inv in Hrun as [(a2 & q2 & t2 & u2 & Hc2 & Hrun & ->)|(e & Hc2 & _)];
    rewrite enqueue_copy_Kp_2_run in Hc2;
    destruct (length (items nkp2) <=? _); try discriminate;
    [|injection Hc2 as _ _ <-; constructor].
  injection Hc2 as _ <- <-. constructor; [exact I|].
  apply bind_inv in Hrun as [(a3 & q3 & t3 & u3 & Hr1 & Hrun & ->)|(e & Hr1 & _)];
    rewrite record_events_run in Hr1; [|discriminate].
  injection Hr1 as _ <- <-. cbn [app].
  apply bind_inv in Hrun as [(a4 & q4 & t4 & u4 & Hl & Hrun & ->)|(e & Hl & _)];
    rewrite launch_matching_run in Hl; [|discriminate].
  injection Hl as _ <- <-. constructor; [exact I|].
  apply bind_inv in Hrun as [(a5 & q5 & t5 & u5 & Hr2 & Hrun & ->)|(e & Hr2 & _)];
    rewrite record_events_run in Hr2; [|discriminate].
  injection Hr2 as _ <- <-. cbn [app].
  match type of Hrun with
  | assemble _ _ ?q = _ => destruct (assemble_run nkp1 nkp2 q) as (t' & Hasm & Hgets)
  end.
  rewrite Hasm in Hrun. injection Hrun as _ _ <-.
  eapply Forall_impl; [exact Hgets|]. intros ev [s ->]. exact I.
Qed.

(** The whole trace of a call that passes the assertions. *)
Lemma match_events (nkp1 nkp2 : hostarray F) (p : plan F) r p' t :
  checks nkp1 nkp2 = true →
  match_ nkp1 nkp2 p = (r, p', t) →
  ∃ t3, after_reset nkp1 nkp2 (reset (grown nkp1 nkp2 p)) = (r, p', t3) ∧
        t = Acquire :: (grow_events nkp1 nkp2 p
                        ++ reset_events (grown nkp1 nkp2 p) ++ t3) ++ [Release].
Proof.
  intros Hchecks. rewrite match_run, Hchecks. unfold with_sem, match_locked.
  destruct (after_reset nkp1 nkp2 (reset (grown nkp1 nkp2 p)))
    as [[r3 p3] t3] eqn:Hrest.
  rewrite (bind_run _ _ _ _ _ _ (grow_buffers_events nkp1 nkp2 p) r3 p3
             (reset_events (grown nkp1 nkp2 p) ++ t3)).
  - intros [= <- <- <-]. exists t3. auto.
  - eapply bind_run; [apply _reset_buffer_events|exact Hrest].
Qed.

End Traces.

(** X9. A call of [match] that returns has done exactly this, in this order:
    taken the semaphore; for each keypoint buffer that is too small, logged
    a warning and allocated a larger one; launched [memset_kp] on both
    keypoint buffers and [memset_int] on the match buffer and on the
    counter; uploaded set A, then set B; launched the matching kernel of
    the device type over the least multiple of its work-group size that
    covers set A; downloaded the counter, then the matches; released the
    semaphore. The match buffer has not been reallocated. *)
Theorem match_returns_after_these_events
    {F : Type} `{MatchPlan.Device F}
    (nkp1 nkp2 : MatchPlan.hostarray F) (p p' : MatchPlan.plan F)
    (res : list (keypoint F * keypoint F)) (t : list MatchPlan.event) :
  MatchPlan.match_ nkp1 nkp2 p = (Ok res, p', t) →
  t = MatchPlan.Acquire ::
      grow_events nkp1 nkp2 p ++
      reset_events (grown nkp1 nkp2 p) ++
      [ MatchPlan.CopyH2D "Kp_1"; MatchPlan.CopyH2D "Kp_2";
        matching_launch nkp1 p;
        MatchPlan.Get "cnt"; MatchPlan.Get "match";
        MatchPlan.Release ] ∧
  (∀ shp, MatchPlan.Alloc "match" shp ∉ t) ∧
  ∃ g, matching_launch nkp1 p
       = MatchPlan.Launch (MatchPlan.matching_kernel p) "matching" [g]
           [MatchPlan.kernels (MatchPlan.matching_kernel p)] ∧
       (Z.of_nat (MatchPlan.size_of nkp1) ≤ g)%Z ∧
       (g < Z.of_nat (MatchPlan.size_of nkp1)
            + MatchPlan.kernels (MatchPlan.matching_kernel p))%Z ∧
       (MatchPlan.kernels (MatchPlan.matching_kernel p) | g)%Z.
Proof.
  intros Hmatch.
  destruct (match_ok_inv _ _ _ _ _ _ Hmatch) as (Hchecks & _ & _).
  destruct (match_events nkp1 nkp2 p _ _ _ Hchecks Hmatch) as (t3 & Hrest & ->).
  apply after_reset_ok_events in Hrest as ->.
  assert (Hfits : (MatchPlan.size (MatchPlan.buf_match p)
                   <? MatchPlan.size_of nkp2 `min` MatchPlan.size_of nkp1) = false).
  { destruct (Nat.ltb_spec (MatchPlan.size (MatchPlan.buf_match p))
                (MatchPlan.size_of nkp2 `min` MatchPlan.size_of nkp1)) as [Hlt|]; [|reflexivity].
    destruct (match_raises_after_reallocation nkp1 nkp2 p Hchecks Hlt)
      as (e & q & u & Hraise).
    rewrite Hraise in Hmatch. discriminate. }
  split; [|split].
  - unfold matching_launch.
    rewrite matching_kernel_reset, matching_kernel_grown.
    cbn [app]. rewrite <- !app_assoc. reflexivity.
  - intros shp Hin. unfold grow_events, reset_events, matching_launch in Hin.
    rewrite Hfits in Hin.
    destruct (MatchPlan.size (MatchPlan.buf_Kp_1 p) <? MatchPlan.size_of nkp1);
      destruct (MatchPlan.size (MatchPlan.buf_Kp_2 p) <? MatchPlan.size_of nkp2);
      cbn [app] in Hin;
      repeat (apply elem_of_cons in Hin as [Hin|Hin]; [discriminate Hin|]);
      inversion Hin.
  - destruct (calc_size_launch (MatchPlan.matching_kernel p)
                (Z.of_nat (MatchPlan.size_of nkp1)))
      as (g & Hg & Hle & Hlt & Hdiv).
    exists g. unfold matching_launch. rewrite Hg. auto.
Qed.

Lemma match_returns_after_these_events_witness :
  MatchPlan.Alloc "match" [1] ∉
    (Examples.call (8 # 10) 4
                 (Examples.recarray_of [Examples.kp 0 [1; 2; 3]%Z])
                 (Examples.recarray_of [Examples.kp 1 [1; 2; 3]%Z])).2.
Proof.
  destruct (@match_returns_after_these_events Z (Examples.dev (8 # 10))
              (Examples.recarray_of [Examples.kp 0 [1; 2; 3]%Z])
              (Examples.recarray_of [Examples.kp 1 [1; 2; 3]%Z])
              (Examples.fresh_plan (8 # 10) 4)
              (Examples.call (8 # 10) 4
                 (Examples.recarray_of [Examples.kp 0 [1; 2; 3]%Z])
                 (Examples.recarray_of [Examples.kp 1 [1; 2; 3]%Z])).1.2
              [(Examples.kp 0 [1; 2; 3]%Z, Examples.kp 1 [1; 2; 3]%Z)]
              (Examples.call (8 # 10) 4
                 (Examples.recarray_of [Examples.kp 0 [1; 2; 3]%Z])
                 (Examples.recarray_of [Examples.kp 1 [1; 2; 3]%Z])).2)
    as (_ & Hno & _).
  - vm_compute. reflexivity.
  - apply Hno.
Defined.

(** ** Profiling events *)

Section Profiling.
Import Utils MatchPlan.
Context {F : Type} `{Device F}.

Lemma attributes_recorded evs (p : plan F) :
  attributes (recorded evs p) = attributes p.
Proof. unfold recorded. destruct (profile p); reflexivity. Qed.

Lemma profile_recorded evs (p : plan F) :
  profile (recorded evs p) = profile p.
Proof. unfold recorded. destruct (profile p) eqn:Hp; [exact Hp|exact Hp]. Qed.

Lemma events_recorded evs (p : plan F) :
  events (recorded evs p) = events p ++ (if profile p then evs else []).
Proof.
  unfold recorded. destruct (profile p); [reflexivity|].
  symmetry. apply app_nil_r.
Qed.

Lemma attributes_grown (nkp1 nkp2 : hostarray F) (p : plan F) :
  attributes (grown nkp1 nkp2 p) = attributes p ∧
  events (grown nkp1 nkp2 p) = events p.
Proof.
  unfold grown.
  destruct (_ <? size_of nkp1); cbn [buf_Kp_2 set_Kp_1];
    destruct (_ <? size_of nkp2); cbn [buf_match set_Kp_1 set_Kp_2];
    destruct (_ <? _ `min` _); split; reflexivity.
Qed.

Lemma events_reset (p : plan F) :
  events (reset p) = events p ++ (if profile p then take 4 profile_labels else []).
Proof.
  unfold reset. cbn [events]. destruct (profile p); [reflexivity|].
  symmetry. apply app_nil_r.
Qed.

Lemma events_matched (nkp1 nkp2 : hostarray F) (p : plan F) :
  attributes (matched nkp1 nkp2 p) = attributes p ∧
  events (matched nkp1 nkp2 p)
  = events p ++ (if profile p then profile_labels else []).
Proof.
  destruct (attributes_grown nkp1 nkp2 p) as [Hattr Hev].
  assert (Hprof : profile (grown nkp1 nkp2 p) = profile p).
  { unfold attributes in Hattr. congruence. }
  unfold matched. split.
  - rewrite attributes_recorded.
    change (attributes (launched nkp1 nkp2 ?q)) with (attributes q).
    rewrite attributes_recorded. exact Hattr.
  - rewrite events_recorded.
    change (events (launched nkp1 nkp2 ?q)) with (events q).
    change (profile (launched nkp1 nkp2 ?q)) with (profile q).
    rewrite events_recorded.
    rewrite profile_recorded.
    change (events (uploaded_2 nkp2 (uploaded_1 nkp1 ?q))) with (events q).
    change (profile (uploaded_2 nkp2 (uploaded_1 nkp1 ?q))) with (profile q).
    rewrite events_reset. change (profile (reset ?q)) with (profile q).
    rewrite Hev, Hprof. destruct (profile p); [|rewrite !app_nil_r; reflexivity].
    rewrite <- !app_assoc. reflexivity.
Qed.

(** What a call leaves in [events], however it ends. *)
Lemma events_match (nkp1 nkp2 : hostarray F) (p : plan F) :
  attributes (match_ nkp1 nkp2 p).1.2 = attributes p ∧
  ∃ k, events (match_ nkp1 nkp2 p).1.2
       = events p ++ (if profile p then take k profile_labels else []).
Proof.
  rewrite match_run. destruct (checks nkp1 nkp2).
  2:{ split; [reflexivity|]. exists 0. cbn [fst snd take].
      destruct (profile p); symmetry; apply app_nil_r. }
  unfold with_sem. destruct (match_locked_run nkp1 nkp2 p) as (t & ->).
  destruct (attributes_grown nkp1 nkp2 p) as [Hattr Hev].
  assert (Hprof : profile (grown nkp1 nkp2 p) = profile p).
  { unfold attributes in Hattr. congruence. }
  assert (Hreset : attributes (reset (grown nkp1 nkp2 p)) = attributes p ∧
                   events (reset (grown nkp1 nkp2 p))
                   = events p ++ (if profile p then take 4 profile_labels else [])).
  { split; [exact Hattr|]. rewrite events_reset, Hev, Hprof. reflexivity. }
  unfold locked_outcome.
  destruct (length (items nkp1) <=? _); [destruct (length (items nkp2) <=? _)|];
    cbn [fst snd].
  - destruct (events_matched nkp1 nkp2 p) as [Ha He].
    split; [exact Ha|]. exists 7. exact He.
  - split; [apply Hreset|]. exists 4. apply Hreset.
  - split; [apply Hreset|]. exists 4. apply Hreset.
Qed.

Lemma events_reset_timer (p : plan F) :
  attributes (reset_timer p).1.2 = attributes p ∧
  events (reset_timer p).1.2 = [] ∧
  shapes (reset_timer p).1.2 = shapes p.
Proof. repeat split. Qed.

End Profiling.

(** X10. A returning call adds to [events] exactly the seven labels of its
    device operations, in order, when the plan profiles, and nothing
    otherwise; it changes none of [profile], [kpsize] and [USE_CPU]. *)
Theorem match_records_seven_events
    {F : Type} `{MatchPlan.Device F}
    (nkp1 nkp2 : MatchPlan.hostarray F) (p p' : MatchPlan.plan F)
    (res : list (keypoint F * keypoint F)) (t : list MatchPlan.event) :
  MatchPlan.match_ nkp1 nkp2 p = (Ok res, p', t) →
  MatchPlan.events p' =
    MatchPlan.events p ++
    (if MatchPlan.profile p
     then [ "memset Kp1"; "memset Kp2"; "memset match"; "memset cnt";
            "copy H->D KP_1"; "copy H->D KP_2"; "matching" ]%string
     else []) ∧
  attributes p' = attributes p.
Proof.
  intros Hmatch.
  destruct (match_ok_inv _ _ _ _ _ _ Hmatch) as (_ & -> & _).
  destruct (events_matched nkp1 nkp2 p) as [Hattr Hev].
  split; [exact Hev|exact Hattr].
Qed.

Lemma match_records_seven_events_witness :
  MatchPlan.events
    (@MatchPlan.match_ Z (Examples.dev (8 # 10))
       (Examples.recarray_of [Examples.kp 0 [1; 2; 3]%Z])
       (Examples.recarray_of [Examples.kp 1 [1; 2; 3]%Z])
       (Examples.profiling_plan (8 # 10) 4)).1.2
  = [ "memset Kp1"; "memset Kp2"; "memset match"; "memset cnt";
      "copy H->D KP_1"; "copy H->D KP_2"; "matching" ]%string.
Proof.
  destruct (@match_records_seven_events Z (Examples.dev (8 # 10))
              (Examples.recarray_of [Examples.kp 0 [1; 2; 3]%Z])
              (Examples.recarray_of [Examples.kp 1 [1; 2; 3]%Z])
              (Examples.profiling_plan (8 # 10) 4)
              (@MatchPlan.match_ Z (Examples.dev (8 # 10))
       (Examples.recarray_of [Examples.kp 0 [1; 2; 3]%Z])
       (Examples.recarray_of [Examples.kp 1 [1; 2; 3]%Z])
       (Examples.profiling_plan (8 # 10) 4)).1.2
              [(Examples.kp 0 [1; 2; 3]%Z, Examples.kp 1 [1; 2; 3]%Z)]
              (@MatchPlan.match_ Z (Examples.dev (8 # 10))
       (Examples.recarray_of [Examples.kp 0 [1; 2; 3]%Z])
       (Examples.recarray_of [Examples.kp 1 [1; 2; 3]%Z])
       (Examples.profiling_plan (8 # 10) 4)).2)
    as [Hev _].
  - vm_compute. reflexivity.
  - rewrite Hev. reflexivity.
Defined.

Section MethodSequences.
Import Utils MatchPlan.
Context {F : Type} `{Device F}.

Lemma take_profile_labels k :
  Forall (λ l, l ∈ profile_labels) (take k profile_labels) ∧
  length (take k profile_labels) ≤ 7.
Proof.
  split.
  - apply Forall_take, Forall_forall. auto.
  - rewrite length_take. unfold profile_labels. simpl. lia.
Qed.

(** One method call: the attributes stay, [events] grows by at most seven
    of the labels or is emptied. *)
Lemma after_method_events (c : method_call) (p : plan F) :
  attributes (after_method c p) = attributes p ∧
  (profile p = false → events p = [] → events (after_method c p) = []) ∧
  (Forall (λ l, l ∈ profile_labels) (events p) →
   Forall (λ l, l ∈ profile_labels) (events (after_method c p))) ∧
  length (events (after_method c p)) ≤ length (events p) + 7.
Proof.
  destruct c as [nkp1 nkp2|]; cbn [after_method].
  - destruct (events_match nkp1 nkp2 p) as [Hattr [k Hev]].
    destruct (take_profile_labels k) as [Hall Hlen].
    split; [exact Hattr|]. rewrite Hev. split; [|split].
    + intros -> ->. reflexivity.
    + intros Hold. apply Forall_app. split; [exact Hold|].
      destruct (profile p); [exact Hall|constructor].
    + rewrite length_app. destruct (profile p); simpl; lia.
  - repeat split; auto. simpl. lia.
Qed.

Lemma after_methods_events (cs : list method_call) (p : plan F) :
  attributes (after_methods cs p) = attributes p ∧
  (profile p = false → events p = [] → events (after_methods cs p) = []) ∧
  (Forall (λ l, l ∈ profile_labels) (events p) →
   Forall (λ l, l ∈ profile_labels) (events (after_methods cs p))) ∧
  length (events (after_methods cs p)) ≤ length (events p) + 7 * length cs.
Proof.
  revert p. induction cs as [|c cs IH]; intros p.
  - repeat split; auto. simpl. lia.
  - change (after_methods (c :: cs) p) with (after_methods cs (after_method c p)).
    destruct (after_method_events c p) as (Ha & He & Hl & Hn).
    destruct (IH (after_method c p)) as (Ha' & He' & Hl' & Hn').
    assert (Hprof : profile (after_method c p) = profile p).
    { unfold attributes in Ha. congruence. }
    split; [congruence|]. split; [|split].
    + intros Hp Hnil. apply He'; [congruence|]. apply He; assumption.
    + intros Hold. apply Hl', Hl, Hold.
    + simpl. lia.
Qed.

Lemma after_methods_app (cs cs' : list method_call) (p : plan F) :
  after_methods (cs ++ cs') p = after_methods cs' (after_methods cs p).
Proof. unfold after_methods. apply foldl_app. Qed.

End MethodSequences.

(** X11. On a plan reached from the constructor by any calls of [match] and
    [reset_timer], returning or raising: [profile], [kpsize] and
    [USE_CPU] are those of the constructor ([kpsize] does not follow the
    growth of the buffers); [events] holds only the seven labels of
    [match], at most seven per call; it is empty on a plan that does not
    profile, and after [reset_timer]. *)
Theorem events_across_method_calls
    {F : Type} `{MatchPlan.Device F}
    (cs : list (@method_call F)) (size : nat) (cpu profile : bool) :
  let p := after_methods cs (MatchPlan.__init__ size cpu profile) in
  attributes p = (profile, size, cpu) ∧
  Forall (λ l, l ∈ profile_labels) (MatchPlan.events p) ∧
  length (MatchPlan.events p) ≤ 7 * length cs ∧
  (profile = false → MatchPlan.events p = []) ∧
  MatchPlan.events
    (after_methods (cs ++ [CallResetTimer])
       (MatchPlan.__init__ size cpu profile)) = [].
Proof.
  intros p.
  destruct (after_methods_events cs (MatchPlan.__init__ size cpu profile))
    as (Ha & He & Hl & Hn).
  split; [exact Ha|]. split; [apply Hl; constructor|].
  split; [exact Hn|]. split.
  - intros ->. apply He; reflexivity.
  - rewrite after_methods_app. reflexivity.
Qed.

(** ** Reuse of the buffers *)

Section Reuse.
Import Utils MatchPlan.
Context {F : Type} `{Device F}.

Lemma grown_fits (nkp1 nkp2 : hostarray F) (p : plan F) :
  size_of nkp1 ≤ size (buf_Kp_1 p) →
  size_of nkp2 ≤ size (buf_Kp_2 p) →
  size_of nkp2 `min` size_of nkp1 ≤ size (buf_match p) →
  grown nkp1 nkp2 p = p ∧ grow_events nkp1 nkp2 p = [].
Proof.
  intros H1 H2 H3. unfold grown, grow_events.
  destruct (Nat.ltb_spec (size (buf_Kp_1 p)) (size_of nkp1)); [lia|].
  destruct (Nat.ltb_spec (size (buf_Kp_2 p)) (size_of nkp2)); [lia|].
  destruct (Nat.ltb_spec (size (buf_match p)) (size_of nkp2 `min` size_of nkp1));
    [lia|]. auto.
Qed.

Lemma grown_Kp_shapes (nkp1 nkp2 : hostarray F) (p : plan F) :
  shape (buf_Kp_1 (grown nkp1 nkp2 p)) =
    (if size (buf_Kp_1 p) <? size_of nkp1 then [size_of nkp1]
     else shape (buf_Kp_1 p)) ∧
  shape (buf_Kp_2 (grown nkp1 nkp2 p)) =
    (if size (buf_Kp_2 p) <? size_of nkp2 then [size_of nkp2]
     else shape (buf_Kp_2 p)).
Proof.
  unfold grown. destruct p as [prof ks cpu evs b1 b2 bm bc].
  cbn -[Nat.ltb Nat.min].
  destruct (size b1 <? size_of nkp1); cbn -[Nat.ltb Nat.min];
    destruct (size b2 <? size_of nkp2); cbn -[Nat.ltb Nat.min];
    destruct (size bm <? size_of nkp2 `min` size_of nkp1); split; reflexivity.
Qed.

End Reuse.

(** X12. A call of [match] that passes the assertions replaces a keypoint
    buffer exactly when it has fewer records than the input, by a buffer of
    exactly the input's length. When both inputs fit and the match buffer
    has at least [min(n2, n1)] entries, the call allocates nothing and logs
    nothing, and every buffer keeps its shape: the plan is reused as it
    is, whether the call returns or raises. *)
Theorem match_reallocates_only_when_too_small
    {F : Type} `{MatchPlan.Device F}
    (nkp1 nkp2 : MatchPlan.hostarray F) (p p' : MatchPlan.plan F)
    (r : result (list (keypoint F * keypoint F))) (t : list MatchPlan.event) :
  checks nkp1 nkp2 = true →
  MatchPlan.match_ nkp1 nkp2 p = (r, p', t) →
  MatchPlan.shape (MatchPlan.buf_Kp_1 p') =
    (if MatchPlan.size (MatchPlan.buf_Kp_1 p) <? MatchPlan.size_of nkp1
     then [MatchPlan.size_of nkp1] else MatchPlan.shape (MatchPlan.buf_Kp_1 p)) ∧
  MatchPlan.shape (MatchPlan.buf_Kp_2 p') =
    (if MatchPlan.size (MatchPlan.buf_Kp_2 p) <? MatchPlan.size_of nkp2
     then [MatchPlan.size_of nkp2] else MatchPlan.shape (MatchPlan.buf_Kp_2 p)) ∧
  (MatchPlan.size_of nkp1 ≤ MatchPlan.size (MatchPlan.buf_Kp_1 p) →
   MatchPlan.size_of nkp2 ≤ MatchPlan.size (MatchPlan.buf_Kp_2 p) →
   MatchPlan.size_of nkp2 `min` MatchPlan.size_of nkp1
     ≤ MatchPlan.size (MatchPlan.buf_match p) →
   shapes p' = shapes p ∧
   Forall (λ ev, match ev with
                 | MatchPlan.Alloc _ _ | MatchPlan.Warning _ _ => False
                 | _ => True
                 end) t).
Proof.
  intros Hchecks Hmatch.
  pose proof (match_shapes nkp1 nkp2 p Hchecks) as Hshapes.
  rewrite Hmatch in Hshapes. cbn [fst snd] in Hshapes.
  destruct (grown_Kp_shapes nkp1 nkp2 p) as [Hs1 Hs2].
  unfold shapes in Hshapes. injection Hshapes as Hk1 Hk2 Hm.
  split; [congruence|]. split; [congruence|].
  intros H1 H2 H3.
  destruct (grown_fits nkp1 nkp2 p H1 H2 H3) as [Hgrown Hnone].
  split; [unfold shapes; rewrite Hk1, Hk2, Hm, Hgrown; reflexivity|].
  destruct (match_events nkp1 nkp2 p _ _ _ Hchecks Hmatch) as (t3 & Hrest & ->).
  rewrite Hnone. cbn [app].
  constructor; [exact I|].
  rewrite <- app_assoc. apply Forall_app. split.
  - unfold reset_events. repeat constructor.
  - apply Forall_app. split; [|repeat constructor].
    eapply Forall_impl; [exact (after_reset_events _ _ _ _ _ _ Hrest)|].
    intros [] Hev; try exact I; destruct Hev.
Qed.

Lemma match_reallocates_only_when_too_small_witness :
  shapes (Examples.call (8 # 10) 4
                 (Examples.recarray_of [Examples.kp 0 [1; 2; 3]%Z])
                 (Examples.recarray_of [Examples.kp 1 [1; 2; 3]%Z])).1.2
  = shapes (Examples.fresh_plan (8 # 10) 4).
Proof.
  destruct (@match_reallocates_only_when_too_small Z (Examples.dev (8 # 10))
              (Examples.recarray_of [Examples.kp 0 [1; 2; 3]%Z])
              (Examples.recarray_of [Examples.kp 1 [1; 2; 3]%Z])
              (Examples.fresh_plan (8 # 10) 4)
              (Examples.call (8 # 10) 4
                 (Examples.recarray_of [Examples.kp 0 [1; 2; 3]%Z])
                 (Examples.recarray_of [Examples.kp 1 [1; 2; 3]%Z])).1.2
              (Ok [(Examples.kp 0 [1; 2; 3]%Z, Examples.kp 1 [1; 2; 3]%Z)])
              (Examples.call (8 # 10) 4
                 (Examples.recarray_of [Examples.kp 0 [1; 2; 3]%Z])
                 (Examples.recarray_of [Examples.kp 1 [1; 2; 3]%Z])).2
              eq_refl)
    as (_ & _ & Hfits).
  - vm_compute. reflexivity.
  - destruct Hfits as [Hshapes _]; [vm_compute; lia..|exact Hshapes].
Defined.

(** X13. When the match buffer has a single row (a plan of size 1 that has
    not reallocated it) and the counter says [cnt > 0], the call returns
    [cnt] copies of the one pair that row 0 designates: numpy repeats the
    only downloaded row over the whole result, and the other [cnt - 1]
    matches are lost without an error. *)
Theorem match_single_row_repeats_first_pair
    {F : Type} `{MatchPlan.Device F}
    (setA setB : MatchPlan.hostarray F) (p p' : MatchPlan.plan F)
    (res : list (keypoint F * keypoint F)) (t : list MatchPlan.event) :
  MatchPlan.dtype_ setA = MatchPlan.dtype_kp →
  MatchPlan.dtype_ setB = MatchPlan.dtype_kp →
  MatchPlan.match_ setA setB p = (Ok res, p', t) →
  MatchPlan.shape (MatchPlan.buf_match p') = [1; 2] →
  ∃ cnt, MatchPlan.data (MatchPlan.buf_cnt p') !! 0 = Some cnt ∧
    (0 ≤ cnt)%Z ∧ length res = Z.to_nat cnt ∧
    ((0 < cnt)%Z →
     ∃ ka kb,
       MatchPlan.getitem (MatchPlan.items setA)
         (MatchPlan.data (MatchPlan.buf_match p') !!! 0) = Ok ka ∧
       MatchPlan.getitem (MatchPlan.items setB)
         (MatchPlan.data (MatchPlan.buf_match p') !!! 1) = Ok kb ∧
       res = replicate (Z.to_nat cnt) (ka, kb)).
Proof.
  intros HdA HdB Hmatch Hshape.
  destruct (match_ok_inv _ _ _ _ _ _ Hmatch) as (_ & _ & Hasm).
  exact (assembled_single_row _ _ _ _ HdA HdB Hshape Hasm).
Qed.

Lemma match_single_row_repeats_first_pair_witness :
  ∃ cnt,
    MatchPlan.data (MatchPlan.buf_cnt
      (Examples.call (8 # 10) 1
         (Examples.recarray_of [Examples.kp 0 [1; 2; 3]; Examples.kp 1 [9; 9; 9]]%Z)
         (Examples.recarray_of [Examples.kp 3 [1; 2; 3]; Examples.kp 4 [9; 9; 9]]%Z)).1.2)
      !! 0 = Some cnt ∧ cnt = 2%Z.
Proof.
  destruct (@match_single_row_repeats_first_pair Z (Examples.dev (8 # 10))
              (Examples.recarray_of [Examples.kp 0 [1; 2; 3]; Examples.kp 1 [9; 9; 9]]%Z)
              (Examples.recarray_of [Examples.kp 3 [1; 2; 3]; Examples.kp 4 [9; 9; 9]]%Z)
              (Examples.fresh_plan (8 # 10) 1)
              (Examples.call (8 # 10) 1
                 (Examples.recarray_of [Examples.kp 0 [1; 2; 3]; Examples.kp 1 [9; 9; 9]]%Z)
                 (Examples.recarray_of [Examples.kp 3 [1; 2; 3]; Examples.kp 4 [9; 9; 9]]%Z)).1.2
              [ (Examples.kp 0 [1; 2; 3], Examples.kp 3 [1; 2; 3]);
                (Examples.kp 0 [1; 2; 3], Examples.kp 3 [1; 2; 3]) ]%Z
              (Examples.call (8 # 10) 1
                 (Examples.recarray_of [Examples.kp 0 [1; 2; 3]; Examples.kp 1 [9; 9; 9]]%Z)
                 (Examples.recarray_of [Examples.kp 3 [1; 2; 3]; Examples.kp 4 [9; 9; 9]]%Z)).2
              eq_refl eq_refl)
    as (cnt & Hcnt & _ & Hlen & _).
  - vm_compute. reflexivity.
  - vm_compute. reflexivity.
  - exists cnt. split; [exact Hcnt|]. simpl in Hlen. lia.
Defined.

(** ** A plan whose match buffer has been reallocated *)

Section RankOne.
Import Utils MatchPlan.
Context {F : Type} `{Device F}.

Lemma rank1_persists (a b : hostarray F) (p : plan F) k :
  shape (buf_match p) = [k] →
  ∃ k', shape (buf_match (match_ a b p).1.2) = [k'].
Proof.
  intros Hshape.
  destruct (match_state_cases a b p) as [[_ ->]|[Hc _]]; [eauto|].
  rewrite (match_match_shape a b p Hc).
  destruct (_ <? _); eauto.
Qed.

Lemma rank1_raises (a b : hostarray F) (p : plan F) k :
  shape (buf_match p) = [k] → ∃ e, (match_ a b p).1.1 = Raise e.
Proof.
  intros Hshape. rewrite match_run.
  destruct (checks a b); [|eauto].
  unfold with_sem. destruct (match_locked_run a b p) as (t & ->).
  assert (Hrank : ∃ k', shape (buf_match (matched a b p)) = [k']).
  { pose proof (shapes_matched a b p) as Hs. unfold shapes in Hs.
    injection Hs as _ _ ->. rewrite grown_match_shape.
    destruct (_ <? _); eauto. }
  destruct Hrank as [k' Hk'].
  destruct (assembled_rank1 a b _ _ Hk') as [e He].
  unfold locked_outcome.
  destruct (length (items a) <=? _); [|eauto].
  destruct (length (items b) <=? _); [|eauto].
  rewrite He. eauto.
Qed.

Lemma rank1_after_calls cs (p : plan F) k :
  shape (buf_match p) = [k] →
  ∃ k', shape (buf_match (after_calls cs p)) = [k'].
Proof.
  revert p k. induction cs as [|c cs IH]; intros p k Hshape; simpl; [eauto|].
  destruct (rank1_persists c.1 c.2 p k Hshape) as [k' Hk'].
  eapply IH, Hk'.
Qed.

End RankOne.

(** X14. Once a call has reallocated the match buffer (its number of entries
    was below [min(n2, n1)]), the buffer has a single axis and keeps one
    through every later call: no call on that plan returns a result any
    more, whatever its inputs and whatever was called in between. *)
Theorem match_never_returns_after_reallocation
    {F : Type} `{MatchPlan.Device F}
    (nkp1 nkp2 : MatchPlan.hostarray F) (p : MatchPlan.plan F)
    (cs : list (MatchPlan.hostarray F * MatchPlan.hostarray F))
    (a b : MatchPlan.hostarray F) :
  checks nkp1 nkp2 = true →
  MatchPlan.size (MatchPlan.buf_match p)
    < MatchPlan.size_of nkp2 `min` MatchPlan.size_of nkp1 →
  let broken := after_calls cs (MatchPlan.match_ nkp1 nkp2 p).1.2 in
  (∃ k, MatchPlan.shape (MatchPlan.buf_match broken) = [k]) ∧
  ∃ e, (MatchPlan.match_ a b broken).1.1 = Raise e.
Proof.
  intros Hchecks Hsmall broken.
  assert (Hfirst : MatchPlan.shape (MatchPlan.buf_match (MatchPlan.match_ nkp1 nkp2 p).1.2)
                   = [MatchPlan.size_of nkp2 `min` MatchPlan.size_of nkp1]).
  { rewrite (match_match_shape nkp1 nkp2 p Hchecks).
    destruct (Nat.ltb_spec (MatchPlan.size (MatchPlan.buf_match p))
                (MatchPlan.size_of nkp2 `min` MatchPlan.size_of nkp1));
      [reflexivity|lia]. }
  destruct (rank1_after_calls cs _ _ Hfirst) as [k Hk].
  split; [eauto|]. eapply rank1_raises, Hk.
Qed.

Lemma match_never_returns_after_reallocation_witness :
  ∃ e, (@MatchPlan.match_ Z (Examples.dev (8 # 10))
          (Examples.recarray_of [Examples.kp 0 [1; 2; 3]%Z])
          (Examples.recarray_of [Examples.kp 0 [1; 2; 3]%Z])
          (@after_calls Z (Examples.dev (8 # 10)) []
             (@MatchPlan.match_ Z (Examples.dev (8 # 10))
                (Examples.recarray_of
                   [Examples.kp 0 [1; 2; 3]; Examples.kp 1 [9; 9; 9]; Examples.kp 2 [5; 0; 5]]%Z)
                (Examples.recarray_of
                   [Examples.kp 0 [1; 2; 3]; Examples.kp 1 [9; 9; 9]; Examples.kp 2 [5; 0; 5]]%Z)
                (Examples.fresh_plan (8 # 10) 1)).1.2)).1.1 = Raise e.
Proof.
  apply (@match_never_returns_after_reallocation Z (Examples.dev (8 # 10))
           (Examples.recarray_of
              [Examples.kp 0 [1; 2; 3]; Examples.kp 1 [9; 9; 9]; Examples.kp 2 [5; 0; 5]]%Z)
           (Examples.recarray_of
              [Examples.kp 0 [1; 2; 3]; Examples.kp 1 [9; 9; 9]; Examples.kp 2 [5; 0; 5]]%Z)
           (Examples.fresh_plan (8 # 10) 1) []
           (Examples.recarray_of [Examples.kp 0 [1; 2; 3]%Z])
           (Examples.recarray_of [Examples.kp 0 [1; 2; 3]%Z])).
  - reflexivity.
  - vm_compute. lia.
Defined.

(** ** [_compile_kernels] *)

Section CompileKernels.
Import MatchPlan.
Context {P : Type} `{Toolchain P}.

Lemma kernel_key_not_keypoints k : String.eqb (kernel_key k) "keypoints" = false.
Proof. destruct k; reflexivity. Qed.

Lemma kernel_key_inj k k' : kernel_key k = kernel_key k' → k = k'.
Proof. destruct k, k'; simpl; intros Heq; (reflexivity || discriminate Heq). Qed.

(** One turn of the loop: the kernel is read and built, and stored under
    its key, or the turn raises. *)
Lemma compile_kernel_run max_wg k (st : compiler P) :
  compile_kernel max_wg k st =
  match read_file (kernel_key k +:+ ".cl") with
  | None => Throw IOError
  | Some src =>
      match build src (Z.min max_wg (kernels k)) with
      | inl prog =>
          Return (Compiler (<[kernel_key k := prog]> (programs st))
                           (LOW_END st) (Some prog))
      | inr f => Throw (raised f)
      end
  end.
Proof.
  unfold compile_kernel. destruct (read_file _) as [src|]; [|reflexivity].
  destruct (build src _) as [prog|[]]; cbn [obind]; try reflexivity.
  rewrite kernel_key_not_keypoints. reflexivity.
Qed.

Lemma compile_loop_return max_wg order (st st' : compiler P) :
  compile_loop max_wg order st = Return st' →
  LOW_END st' = LOW_END st ∧
  (built_from max_wg st → built_from max_wg st') ∧
  (∀ key, is_Some (programs st !! key) → is_Some (programs st' !! key)) ∧
  (∀ k, k ∈ order → is_Some (programs st' !! kernel_key k)) ∧
  (∀ key, is_Some (programs st' !! key) →
     is_Some (programs st !! key) ∨ ∃ k, k ∈ order ∧ key = kernel_key k).
Proof.
  revert st. induction order as [|k order IH]; intros st; simpl.
  - intros [= ->]. repeat split; auto. intros k Hk. inversion Hk.
  - rewrite compile_kernel_run.
    destruct (read_file _) as [src|] eqn:Hread; [|discriminate].
    destruct (build src _) as [prog|f] eqn:Hbuild; [|discriminate].
    cbn [obind]. intros Hloop.
    destruct (IH _ Hloop) as (Hlow & Hbuilt & Hkeep & Hall & Honly).
    cbn [LOW_END programs] in *.
    split; [exact Hlow|]. split; [|split; [|split]].
    + intros Hst. apply Hbuilt. intros k' prog' Hlook.
      cbn [programs] in Hlook.
      destruct (decide (kernel_key k = kernel_key k')) as [Heq|Hne].
      * apply kernel_key_inj in Heq as <-.
        rewrite lookup_insert_eq in Hlook. injection Hlook as <-. eauto.
      * rewrite lookup_insert_ne in Hlook by exact Hne. eapply Hst, Hlook.
    + intros key Hkey. apply Hkeep.
      destruct (decide (kernel_key k = key)) as [<-|Hne].
      * rewrite lookup_insert_eq. eauto.
      * rewrite lookup_insert_ne by exact Hne. exact Hkey.
    + intros k' Hk'. apply elem_of_cons in Hk' as [->|Hk']; [|auto].
      apply Hkeep. rewrite lookup_insert_eq. eauto.
    + intros key Hkey. destruct (Honly key Hkey) as [Hin|(k' & Hk' & ->)].
      * destruct (decide (kernel_key k = key)) as [<-|Hne].
        -- right. exists k. split; [apply list_elem_of_here|reflexivity].
        -- rewrite lookup_insert_ne in Hin by exact Hne. auto.
      * right. exists k'. split; [apply list_elem_of_further, Hk'|reflexivity].
Qed.

(** A loop that raises has read and built every kernel before the one
    that fails. *)
Lemma compile_loop_throw max_wg order (st : compiler P) e :
  compile_loop max_wg order st = Throw e →
  ∃ before k after, order = before ++ k :: after ∧
    (∀ k', k' ∈ before →
       ∃ src prog, read_file (kernel_key k' +:+ ".cl") = Some src ∧
                   build src (Z.min max_wg (kernels k')) = inl prog) ∧
    match read_file (kernel_key k +:+ ".cl") with
    | None => e = IOError
    | Some src =>
        ∃ f, build src (Z.min max_wg (kernels k)) = inr f ∧ e = raised f
    end.
Proof.
  revert st. induction order as [|k order IH]; intros st; simpl; [discriminate|].
  rewrite compile_kernel_run.
  destruct (read_file _) as [src|] eqn:Hread.
  - destruct (build src _) as [prog|f] eqn:Hbuild; cbn [obind].
    + intros Hloop.
      destruct (IH _ Hloop) as (before & k' & after & -> & Hbefore & Hfail).
      exists (k :: before), k', after. split; [reflexivity|].
      split; [|exact Hfail].
      intros k0 Hk0. apply elem_of_cons in Hk0 as [->|Hk0]; [eauto|auto].
    + intros [= <-]. exists [], k, order. split; [reflexivity|].
      split; [intros k' Hk'; inversion Hk'|].
      rewrite Hread. eauto.
  - intros [= <-]. exists [], k, order. split; [reflexivity|].
    split; [intros k' Hk'; inversion Hk'|].
    rewrite Hread. reflexivity.
Qed.

End CompileKernels.

(** X16. [_compile_kernels] reads and builds each kernel of the plan with
    [WORKGROUP_SIZE = min(max_workgroup_size, kernels[kernel])], which is
    the kernel's own size for the default limit of 128. When it returns,
    [self.programs] holds exactly the kernels of the dictionary, each under
    its key with the program built from its file. Otherwise it raises for
    the first kernel, in the order of the dictionary, that cannot be read
    or built: every kernel before it has been read and built, and the
    exception is [IOError] if its file cannot be read and the build's own
    error otherwise. The branch that tolerates a failed build is for a
    kernel named [keypoints], which this class does not have: [LOW_END] is
    never set and the loop never reaches its stale [program] variable. *)
Theorem compile_kernels_builds_all_or_raises
    {P : Type} `{MatchPlan.Toolchain P}
    (max_workgroup_size : Z) (order : list MatchPlan.kernel_name) :
  match MatchPlan._compile_kernels max_workgroup_size order with
  | Return st =>
      MatchPlan.LOW_END st = false ∧
      (∀ k, k ∈ order →
         ∃ src prog,
           MatchPlan.read_file (MatchPlan.kernel_key k +:+ ".cl") = Some src ∧
           MatchPlan.build src (Z.min max_workgroup_size (MatchPlan.kernels k))
             = inl prog ∧
           MatchPlan.programs st !! MatchPlan.kernel_key k = Some prog) ∧
      (∀ key, is_Some (MatchPlan.programs st !! key) →
         ∃ k, k ∈ order ∧ key = MatchPlan.kernel_key k)
  | Throw e =>
      e ≠ MatchPlan.UnboundLocalError ∧
      ∃ before k after, order = before ++ k :: after ∧
        (∀ k', k' ∈ before →
           ∃ src prog,
             MatchPlan.read_file (MatchPlan.kernel_key k' +:+ ".cl") = Some src ∧
             MatchPlan.build src
               (Z.min max_workgroup_size (MatchPlan.kernels k')) = inl prog) ∧
        match MatchPlan.read_file (MatchPlan.kernel_key k +:+ ".cl") with
        | None => e = MatchPlan.IOError
        | Some src =>
            ∃ f, MatchPlan.build src
                   (Z.min max_workgroup_size (MatchPlan.kernels k)) = inr f ∧
                 e = MatchPlan.raised f
        end
  end ∧
  ∀ k, Z.min 128 (MatchPlan.kernels k) = MatchPlan.kernels k.
Proof.
  split; [|intros []; reflexivity].
  unfold MatchPlan._compile_kernels.
  destruct (MatchPlan.compile_loop max_workgroup_size order _) as [st|e] eqn:Hloop.
  - destruct (compile_loop_return _ _ _ _ Hloop)
      as (Hlow & Hbuilt & _ & Hall & Honly).
    split; [exact Hlow|]. split.
    + intros k Hk. destruct (Hall k Hk) as [prog Hprog].
      assert (Hinit : MatchPlan.built_from max_workgroup_size
                        (MatchPlan.Compiler (∅ : gmap string P) false None)).
      { intros k' prog' Hempty. cbn [MatchPlan.programs] in Hempty.
        rewrite lookup_empty in Hempty. discriminate Hempty. }
      destruct (Hbuilt Hinit k prog Hprog) as (src & Hread & Hbuild).
      exists src, prog. auto.
    + intros key Hkey. destruct (Honly key Hkey) as [Hempty|Hin]; [|exact Hin].
      cbn [MatchPlan.programs] in Hempty. rewrite lookup_empty in Hempty.
      destruct Hempty as [? [=]].
  - destruct (compile_loop_throw _ _ _ _ Hloop)
      as (before & k & after & Horder & Hbefore & Hfail).
    split; [|exists before, k, after; auto].
    destruct (MatchPlan.read_file _) as [src|]; [|congruence].
    destruct Hfail as (f & _ & ->). destruct f; discriminate.
Qed.

(** With a limit of 32 work items, the GPU kernel of size 64 is built
    for 32 and the CPU kernel of size 16 for 16. *)
Example compile_kernels_echo :
  ∃ st,
    @MatchPlan._compile_kernels _ Examples.echo_toolchain 32
      [MatchPlan.memset; MatchPlan.matching_cpu; MatchPlan.matching_gpu]
    = Return st ∧
    MatchPlan.programs st !! "matching_gpu"%string
      = Some ("matching_gpu.cl"%string, 32%Z) ∧
    MatchPlan.programs st !! "matching_cpu"%string
      = Some ("matching_cpu.cl"%string, 16%Z) ∧
    MatchPlan.programs st !! "keypoints"%string = None.
Proof. eexists. split; [reflexivity|]. repeat split; vm_compute; reflexivity. Qed.

(** When [memset.cl] cannot be read and [matching_cpu.cl] cannot be
    built, the exception is the one of the kernel that comes first. *)
Example compile_kernels_first_failure :
  @MatchPlan._compile_kernels _ Examples.faulty_toolchain 128
    [MatchPlan.memset; MatchPlan.matching_cpu; MatchPlan.matching_gpu]
  = Throw MatchPlan.IOError ∧
  @MatchPlan._compile_kernels _ Examples.faulty_toolchain 128
    [MatchPlan.matching_gpu; MatchPlan.matching_cpu; MatchPlan.memset]
  = Throw MatchPlan.RuntimeError.
Proof. split; vm_compute; reflexivity. Qed.
